(** * env: populating a struct from environment variables

    A shallow embedding of [env.go].  Go strings are byte strings and are
    modelled by [string]; the process environment is a finite map from
    names to values; a [reflect.Value] of struct kind is the list of its
    fields, each paired with its [reflect.StructField] descriptor.

    The record is mutated in place by the source; here every function
    that writes a field returns the value the field holds afterwards, and
    a parse returns the whole record as it leaves it, also when it returns
    an error.  A pointer owns its target: no two fields point to the same
    struct.  A call that panics yields [Panics]. *)

From Stdlib Require Import ZArith Ascii String List Bool Lia.
From stdpp Require Import base option list strings gmap.
Import ListNotations.

Set Warnings "-register-all".

Local Open Scope string_scope.
Local Open Scope list_scope.
Local Open Scope Z_scope.

(** ** Strings *)

Module Strings.

(** The double quote character, used by the messages built with [%s]
    between escaped quotes. *)
Definition dquote : string := String (ascii_of_nat 34) EmptyString.

Fixpoint HasPrefix (s p : string) : bool :=
  match p, s with
  | EmptyString, _ => true
  | String c p', String d s' => if Ascii.eqb c d then HasPrefix s' p' else false
  | String _ _, EmptyString => false
  end.

Fixpoint drop (n : nat) (s : string) : string :=
  match n, s with
  | O, _ => s
  | S n', String _ s' => drop n' s'
  | S _, EmptyString => EmptyString
  end.

(** [strings.Split(s, sep)] for a separator that is not empty: the
    pieces between the successive, non-overlapping occurrences of [sep],
    found from the left.  [skip] counts the bytes of a separator still to
    be passed over, [cur] holds the bytes of the current piece, last one
    first.  Both call sites of [env.go] pass a separator that is not
    empty; for an empty one [Split] below returns the bytes one by one. *)
Fixpoint genSplit (sep : string) (skip : nat) (cur : list ascii) (s : string)
  : list string :=
  match s with
  | EmptyString => [string_of_list_ascii (rev cur)]
  | String c s' =>
      match skip with
      | S k => genSplit sep k cur s'
      | O =>
          if HasPrefix s sep
          then string_of_list_ascii (rev cur)
                 :: genSplit sep (Nat.pred (String.length sep)) [] s'
          else genSplit sep O (c :: cur) s'
      end
  end.

Fixpoint explode (s : string) : list string :=
  match s with
  | EmptyString => []
  | String c s' => String c EmptyString :: explode s'
  end.

Definition Split (s sep : string) : list string :=
  match sep with
  | EmptyString => explode s
  | String _ _ => genSplit sep O [] s
  end.

(** [strings.Join(elems, sep)]. *)
Fixpoint Join (elems : list string) (sep : string) : string :=
  match elems with
  | [] => EmptyString
  | [e] => e
  | e :: rest => e +:+ sep +:+ Join rest sep
  end.

Definition lower (c : ascii) : ascii :=
  let n := nat_of_ascii c in
  if (Nat.leb 65 n && Nat.leb n 90)%bool then ascii_of_nat (n + 32) else c.

(** [strings.ToLower] on the bytes of the seven-bit range.  The source
    only compares the result with ["true"], and no rune outside that
    range is lowered to one of the letters t, r, u, e, so the comparison
    is decided by this byte-wise lowering. *)
Fixpoint ToLower (s : string) : string :=
  match s with
  | EmptyString => EmptyString
  | String c s' => String (lower c) (ToLower s')
  end.

End Strings.

(** ** The process environment *)

Module Os.

(** [os.LookupEnv]: the empty name is never set. *)
Definition LookupEnv (e : gmap string string) (key : string) : option string :=
  if String.eqb key "" then None else e !! key.

Definition Getenv (e : gmap string string) (key : string) : string :=
  default "" (LookupEnv e key).

Definition Setenv (e : gmap string string) (key value : string) : gmap string string :=
  <[key := value]> e.

Definition Unsetenv (e : gmap string string) (key : string) : gmap string string :=
  delete key e.

End Os.

(** ** Environment accessor (env.go, lines 45-77) *)

(** A call either returns or panics with a message. *)
Inductive outcome (A : Type) : Type :=
| Returns (a : A)
| Panics (msg : string).
Arguments Returns {A} a.
Arguments Panics {A} msg.

Definition Get (e : gmap string string) (key : string) : string :=
  Os.Getenv e key.

Definition GetOr (e : gmap string string) (key defaultValue : string) : string :=
  match Os.LookupEnv e key with
  | Some value => value
  | None => defaultValue
  end.

Definition MustGet (e : gmap string string) (key defaultValue : string)
  : outcome string :=
  match Os.LookupEnv e key with
  | Some value => Returns value
  | None =>
      Panics ("expected environment variable " +:+ Strings.dquote +:+ key
              +:+ Strings.dquote +:+ " does not exist")
  end.

(** ** Types and values seen through reflection *)

(** The types a field can have.  [TDuration] is [time.Duration] (kind
    [Int64], printed ["time.Duration"]); [url.URL] is the struct type
    [TStruct "url.URL"]; [TOther] stands for a type of any kind the
    conversion switch does not name (int8, maps, arrays, interfaces, ...). *)
Inductive typ : Type :=
| TString | TBool | TInt | TUint | TInt64 | TUint64 | TFloat32 | TFloat64
| TDuration
| TSlice (elem : typ)
| TPtr (elem : typ)
| TStruct (name : string)
| TOther (name : string).

Definition TURL : typ := TStruct "url.URL".

Fixpoint typ_eqb (a b : typ) : bool :=
  match a, b with
  | TString, TString | TBool, TBool | TInt, TInt | TUint, TUint
  | TInt64, TInt64 | TUint64, TUint64 | TFloat32, TFloat32
  | TFloat64, TFloat64 | TDuration, TDuration => true
  | TSlice x, TSlice y | TPtr x, TPtr y => typ_eqb x y
  | TStruct n, TStruct m | TOther n, TOther m => String.eqb n m
  | _, _ => false
  end.

Inductive Kind : Type :=
| KInvalid | KBool | KInt | KUint | KInt64 | KUint64 | KFloat32 | KFloat64
| KString | KSlice | KPtr | KStruct | KOther.

Definition kind_of (t : typ) : Kind :=
  match t with
  | TString => KString | TBool => KBool | TInt => KInt | TUint => KUint
  | TInt64 | TDuration => KInt64 | TUint64 => KUint64
  | TFloat32 => KFloat32 | TFloat64 => KFloat64
  | TSlice _ => KSlice | TPtr _ => KPtr | TStruct _ => KStruct
  | TOther _ => KOther
  end.

(** [reflect.StructField]: the name, the type, whether the field is
    exported (its [PkgPath] is empty) and the tag, a list of keys with
    their values in the order they are written. *)
Record StructField : Type := mkField {
  Name : string;
  Type_ : typ;
  Exported : bool;
  Tag : list (string * string)
}.

(** [Tag.Get(key)]: the value of the first pair with that key, the empty
    string when there is none. *)
Fixpoint tagLookup (tag : list (string * string)) (key : string) : string :=
  match tag with
  | [] => ""
  | (k, v) :: rest => if String.eqb k key then v else tagLookup rest key
  end.

Definition TagGet (f : StructField) (key : string) : string :=
  tagLookup (Tag f) key.

(** Values.  Integers of every signed type and durations (nanoseconds)
    are [VInt]; floats are held by the bits of their binary64
    representation; a pointer owns its target or is nil; a struct value
    lists its fields in declaration order. *)
Inductive value : Type :=
| VString (s : string)
| VBool (b : bool)
| VInt (n : Z)
| VUint (n : Z)
| VFloat (bits : Z)
| VSlice (elems : list value)
| VPtr (target : option value)
| VStruct (fields : list (StructField * value)).

(** ** Errors *)

Inductive numerr : Type := ErrSyntax | ErrRange.

Inductive error : Type :=
| ErrNotAStructPtr
| ErrUnsupportedType
| ErrUnsupportedSliceType
| RequiredNotSet (key : string)
| OptionNotSupported (opt : string)
| CustomParserError (cause : error)
| URLParseError (cause : error)
| NumError (func num : string) (why : numerr)
| Aggregate (msg : string)
| Foreign (msg : string).

Inductive result (A : Type) : Type :=
| Ok (a : A)
| Err (e : error).
Arguments Ok {A} a.
Arguments Err {A} e.

(** ** strconv *)

Module Strconv.

Definition digit (c : ascii) : option Z :=
  let n := nat_of_ascii c in
  if (Nat.leb 48 n && Nat.leb n 57)%bool then Some (Z.of_nat n - 48) else None.

Inductive scan : Type := Syntax | Range | Number (n : Z).

(** The digit loop of [ParseUint] in base 10: a byte that is not a digit
    is a syntax error, a value above [maxVal] a range error, whichever the
    scan meets first. *)
Fixpoint scanDigits (maxVal : Z) (s : string) (n : Z) : scan :=
  match s with
  | EmptyString => Number n
  | String c s' =>
      match digit c with
      | None => Syntax
      | Some d =>
          let n1 := n * 10 + d in
          if maxVal <? n1 then Range else scanDigits maxVal s' n1
      end
  end.

Definition ParseUint (s : string) (bitSize : Z) : result Z :=
  match s with
  | EmptyString => Err (NumError "ParseUint" s ErrSyntax)
  | String _ _ =>
      match scanDigits (2 ^ bitSize - 1) s 0 with
      | Syntax => Err (NumError "ParseUint" s ErrSyntax)
      | Range => Err (NumError "ParseUint" s ErrRange)
      | Number n => Ok n
      end
  end.

Definition ParseInt (s0 : string) (bitSize : Z) : result Z :=
  match s0 with
  | EmptyString => Err (NumError "ParseInt" s0 ErrSyntax)
  | String c rest =>
      let neg := Ascii.eqb c "-" in
      let s := if (Ascii.eqb c "+" || neg)%bool then rest else s0 in
      match s with
      | EmptyString => Err (NumError "ParseInt" s0 ErrSyntax)
      | String _ _ =>
          match scanDigits (2 ^ bitSize - 1) s 0 with
          | Syntax => Err (NumError "ParseInt" s0 ErrSyntax)
          | Range => Err (NumError "ParseInt" s0 ErrRange)
          | Number un =>
              let cutoff := 2 ^ (bitSize - 1) in
              if (negb neg && (cutoff <=? un))%bool
              then Err (NumError "ParseInt" s0 ErrRange)
              else if (neg && (cutoff <? un))%bool
              then Err (NumError "ParseInt" s0 ErrRange)
              else Ok (if neg then - un else un)
          end
      end
  end.

Definition ParseBool (str : string) : result bool :=
  if existsb (String.eqb str) ["1"; "t"; "T"; "TRUE"; "true"; "True"]
  then Ok true
  else if existsb (String.eqb str) ["0"; "f"; "F"; "FALSE"; "false"; "False"]
  then Ok false
  else Err (NumError "ParseBool" str ErrSyntax).

End Strconv.

(** ** What the package takes from outside

    Library functions the package calls and whose code is not part of it,
    and the methods of the user's own types. *)
Class Runtime : Type := {
  (** [strconv.Quote], the [%q] verb of [fmt]. *)
  Quote : string -> string;
  (** [os.Expand]. *)
  Expand : string -> (string -> string) -> string;
  (** [strconv.ParseFloat(s, bitSize)], the result as binary64 bits. *)
  ParseFloat : string -> Z -> result Z;
  (** [time.ParseDuration], in nanoseconds. *)
  ParseDuration : string -> result Z;
  (** [url.Parse], the result being the [url.URL] struct pointed to. *)
  url_Parse : string -> result value;
  (** The method [UnmarshalText] of the pointer type [*t], when it has
      one: from the target as it is and the text, the target as the call
      leaves it and the error returned. *)
  UnmarshalText : typ -> option (value -> string -> value * option error);
  (** The zero value of a struct type or of a type of another kind. *)
  zeroNamed : string -> value
}.

(** The zero value of a type, as [reflect.New] and [reflect.MakeSlice]
    make it. *)
Definition Zero `{Runtime} (t : typ) : value :=
  match t with
  | TString => VString ""
  | TBool => VBool false
  | TInt | TInt64 | TDuration => VInt 0
  | TUint | TUint64 => VUint 0
  | TFloat32 | TFloat64 => VFloat 0
  | TSlice _ => VSlice []
  | TPtr _ => VPtr None
  | TStruct n | TOther n => zeroNamed n
  end.

(** [ParserFunc]: the pair a custom parser returns, an [interface{}]
    (nil, or a value with its dynamic type) and an error. *)
Definition ParserFunc : Type := string -> option (typ * value) * option error.

(** [CustomParsers], a map read by type and never written by the package. *)
Definition CustomParsers : Type := typ -> option ParserFunc.

Definition noParsers : CustomParsers := fun _ => None.

(** A call of the hook [OnEnvVarSet]. *)
Definition hookCall : Type := (StructField * string)%type.

(** What a call on a field leaves: the field's value after the call and
    the error returned. *)
Definition assigned : Type := outcome (value * option error).

Definition unexportedPanic : string :=
  "reflect: value obtained using unexported field".

Definition zeroValuePanic : string :=
  "reflect: call of reflect.Value.Set on zero Value".

Definition notAssignablePanic : string :=
  "reflect.Set: value is not assignable to the type of the field".

Section Engine.

Context `{RT : Runtime}.

(** The environment the parse reads.  The package never writes it while
    parsing. *)
Variable e : gmap string string.

(** ** Field resolver (env.go, lines 148-200) *)

Definition parseKeyForOption (key : string) : string * list string :=
  let opts := Strings.Split key "," in
  (hd "" opts, tl opts).

Definition getRequired (key prefix : string) : string * option error :=
  match Os.LookupEnv e (prefix +:+ key) with
  | Some value => (value, None)
  | None => ("", Some (RequiredNotSet key))
  end.

Definition getOrWithPrefix (key prefix defaultValue : string) : string :=
  match Os.LookupEnv e (prefix +:+ key) with
  | Some value => value
  | None => defaultValue
  end.

Definition ExpandEnv (s : string) : string := Expand s (Os.Getenv e).

(** One round of the loop over the options: [acc] holds [val] and [err]
    as the rounds before left them. *)
Definition applyOption (key prefix : string) (acc : string * option error)
  (opt : string) : string * option error :=
  if String.eqb opt "" then acc
  else if String.eqb opt "required" then getRequired key prefix
  else (fst acc, Some (OptionNotSupported opt)).

Definition get (field : StructField) (prefix : string) : string * option error :=
  let '(key, opts) := parseKeyForOption (TagGet field "env") in
  let defaultValue := TagGet field "envDefault" in
  let val := getOrWithPrefix key prefix defaultValue in
  let expandVar := TagGet field "envExpand" in
  let val :=
    if String.eqb (Strings.ToLower expandVar) "true" then ExpandEnv val else val in
  fold_left (applyOption key prefix) opts (val, None).

(** ** Conversion (env.go, lines 202-507) *)

(** [field.Set(reflect.ValueOf(val))] and the typed setters: they panic on
    a field that cannot be set, and [Set] on a value of another type. *)
Definition fieldSet (refType : StructField) (t : typ) (val : value) : assigned :=
  if negb (Exported refType) then Panics unexportedPanic
  else if typ_eqb t (Type_ refType) then Returns (val, None)
  else Panics notAssignablePanic.

Definition fieldSetKind (refType : StructField) (val : value) : assigned :=
  if Exported refType then Returns (val, None) else Panics unexportedPanic.

(** The loop shared by [parseInts], [parseInt64s], [parseUint64s],
    [parseFloat32s], [parseFloat64s], [parseBools], [parseDurations] and
    [parseUrls]: convert the elements in order, append each result, return
    the first error. *)
Fixpoint parseEach {A : Type} (conv : string -> result A) (data : list string)
  (slice : list A) : result (list A) :=
  match data with
  | [] => Ok slice
  | v :: rest =>
      match conv v with
      | Err err => Err err
      | Ok x => parseEach conv rest (slice ++ [x])
      end
  end.

Definition parseInts (data : list string) : result (list Z) :=
  parseEach (fun v => Strconv.ParseInt v 32) data [].

Definition parseInt64s (data : list string) : result (list Z) :=
  parseEach (fun v => Strconv.ParseInt v 64) data [].

Definition parseUint64s (data : list string) : result (list Z) :=
  parseEach (fun v => Strconv.ParseUint v 64) data [].

Definition parseFloat32s (data : list string) : result (list Z) :=
  parseEach (fun v => ParseFloat v 32) data [].

Definition parseFloat64s (data : list string) : result (list Z) :=
  parseEach (fun v => ParseFloat v 64) data [].

Definition parseBools (data : list string) : result (list bool) :=
  parseEach Strconv.ParseBool data [].

Definition parseDurations (data : list string) : result (list Z) :=
  parseEach ParseDuration data [].

Definition parseUrls (data : list string) : result (list value) :=
  parseEach url_Parse data [].

(** [parseTextUnmarshalers]: every element starts as the zero value of
    its type (of the target type, for a slice of pointers) and is decoded
    in place; the first error leaves the field as it was. *)
Definition decodeElem (elemType : typ)
  (um : value -> string -> value * option error) (v : string) : result value :=
  match elemType with
  | TPtr target =>
      match um (Zero target) v with
      | (x, None) => Ok (VPtr (Some x))
      | (_, Some err) => Err err
      end
  | _ =>
      match um (Zero elemType) v with
      | (x, None) => Ok x
      | (_, Some err) => Err err
      end
  end.

Definition parseTextUnmarshalers (field : value) (refType : StructField)
  (elemType : typ) (um : value -> string -> value * option error)
  (data : list string) : assigned :=
  match parseEach (decodeElem elemType um) data [] with
  | Err err => Returns (field, Some err)
  | Ok slice => fieldSet refType (Type_ refType) (VSlice slice)
  end.

(** The cases of [handleSlice] that convert with a [parse...s] function
    and set the field. *)
Definition setSlice {A : Type} (field : value) (refType : StructField)
  (parsed : result (list A)) (box : A -> value) : assigned :=
  match parsed with
  | Err err => Returns (field, Some err)
  | Ok data => fieldSet refType (Type_ refType) (VSlice (map box data))
  end.

(** The type an element is decoded into by [UnmarshalText]: the element
    type, or what it points to (lines 345-349). *)
Definition decodeTarget (elemType : typ) : typ :=
  match elemType with
  | TPtr t => t
  | t => t
  end.

Definition handleSlice (field : value) (refType : StructField)
  (value separator : string) : assigned :=
  let separator := if String.eqb separator "" then "," else separator in
  let splitData := Strings.Split value separator in
  match Type_ refType with
  | TSlice TString =>
      fieldSet refType (Type_ refType) (VSlice (map VString splitData))
  | TSlice TInt => setSlice field refType (parseInts splitData) VInt
  | TSlice TInt64 => setSlice field refType (parseInt64s splitData) VInt
  | TSlice TUint64 => setSlice field refType (parseUint64s splitData) VUint
  | TSlice TFloat32 => setSlice field refType (parseFloat32s splitData) VFloat
  | TSlice TFloat64 => setSlice field refType (parseFloat64s splitData) VFloat
  | TSlice TBool => setSlice field refType (parseBools splitData) VBool
  | TSlice TDuration => setSlice field refType (parseDurations splitData) VInt
  | TSlice elemType =>
      if typ_eqb elemType TURL
      then setSlice field refType (parseUrls splitData) (fun u => u)
      else
        match UnmarshalText (decodeTarget elemType) with
        | None => Returns (field, Some ErrUnsupportedSliceType)
        | Some um => parseTextUnmarshalers field refType elemType um splitData
        end
  | _ => Panics "reflect: Elem of invalid type"
  end.

Definition handleTextUnmarshaler (field : value) (refType : StructField)
  (value : string) : assigned :=
  if negb (Exported refType) then Panics unexportedPanic
  else
    match Type_ refType with
    | TPtr elem =>
        let target := match field with VPtr (Some x) => x | _ => Zero elem end in
        match UnmarshalText elem with
        | None => Returns (VPtr (Some target), Some ErrUnsupportedType)
        | Some um =>
            let '(x, err) := um target value in Returns (VPtr (Some x), err)
        end
    | t =>
        match UnmarshalText t with
        | None => Returns (field, Some ErrUnsupportedType)
        | Some um => Returns (um field value)
        end
    end.

(** The cases of [set] that parse a scalar and set the field. *)
Definition setParsed {A : Type} (field : value) (refType : StructField)
  (parsed : result A) (box : A -> value) : assigned :=
  match parsed with
  | Err err => Returns (field, Some err)
  | Ok x => fieldSetKind refType (box x)
  end.

Definition set (field : value) (refType : StructField) (value : string)
  (funcMap : CustomParsers) : assigned :=
  match funcMap (Type_ refType) with
  | Some parserFunc =>
      match parserFunc value with
      | (_, Some err) => Returns (field, Some (CustomParserError err))
      | (Some (t, val), None) => fieldSet refType t val
      | (None, None) => Panics zeroValuePanic
      end
  | None =>
      if typ_eqb (Type_ refType) TURL then
        match url_Parse value with
        | Err err => Returns (field, Some (URLParseError err))
        | Ok u => fieldSet refType TURL u
        end
      else
        match kind_of (Type_ refType) with
        | KSlice => handleSlice field refType value (TagGet refType "envSeparator")
        | KString => fieldSetKind refType (VString value)
        | KBool => setParsed field refType (Strconv.ParseBool value) VBool
        | KInt => setParsed field refType (Strconv.ParseInt value 32) VInt
        | KUint => setParsed field refType (Strconv.ParseUint value 32) VUint
        | KFloat32 => setParsed field refType (ParseFloat value 32) VFloat
        | KFloat64 =>
            match ParseFloat value 64 with
            | Err err => Returns (field, Some err)
            | Ok v => fieldSet refType TFloat64 (VFloat v)
            end
        | KInt64 =>
            match Type_ refType with
            | TDuration =>
                match ParseDuration value with
                | Err err => Returns (field, Some err)
                | Ok dValue => fieldSet refType TDuration (VInt dValue)
                end
            | _ => setParsed field refType (Strconv.ParseInt value 64) VInt
            end
        | KUint64 => setParsed field refType (Strconv.ParseUint value 64) VUint
        | _ => handleTextUnmarshaler field refType value
        end
  end.

(** ** Population engine (env.go, lines 80-146) *)

(** [err.Error()]. *)
Fixpoint Error (err : error) : string :=
  match err with
  | ErrNotAStructPtr => "Expected a pointer to a Struct"
  | ErrUnsupportedType => "Type is not supported"
  | ErrUnsupportedSliceType => "Unsupported slice type"
  | RequiredNotSet key =>
      "required environment variable " +:+ Quote key +:+ " is not set"
  | OptionNotSupported opt =>
      "env tag option " +:+ Quote opt +:+ " not supported"
  | CustomParserError cause => "Custom parser error: " +:+ Error cause
  | URLParseError cause => "Unable to complete URL parse: " +:+ Error cause
  | NumError func num why =>
      "strconv." +:+ func +:+ ": parsing " +:+ Quote num +:+ ": "
      +:+ match why with
          | ErrSyntax => "invalid syntax"
          | ErrRange => "value out of range"
          end
  | Aggregate msg => msg
  | Foreign msg => msg
  end.

(** What a parse leaves: the value as the call leaves it, the calls of
    [OnEnvVarSet] it makes when the hook is set, in order, and the error
    returned. *)
Definition parsed : Type := outcome (value * list hookCall * option error).

(** Lines 125-140 of the loop body, for a field that is not recursed
    into: the field after the round, the hook calls made and the messages
    appended to [errorList]. *)
Definition populate (refField : value) (refTypeField : StructField)
  (prefix : string) (funcMap : CustomParsers)
  : outcome (value * list hookCall * list string) :=
  match get refTypeField prefix with
  | (_, Some err) => Returns (refField, [], [Error err])
  | (value, None) =>
      if String.eqb value "" then Returns (refField, [], [])
      else
        match set refField refTypeField value funcMap with
        | Panics msg => Panics msg
        | Returns (field', Some err) => Returns (field', [], [Error err])
        | Returns (field', None) => Returns (field', [(refTypeField, value)], [])
        end
  end.

(** The end of [doParse], lines 142-145. *)
Definition aggregate (errorList : list string) : option error :=
  match errorList with
  | [] => None
  | _ :: _ => Some (Aggregate (Strings.Join errorList ". "))
  end.

(** The test of line 118,
    [reflect.Ptr == refField.Kind() && !refField.IsNil() && refField.CanSet()].
    A field reached through the pointer to its struct can be set when it
    is exported. *)
Definition isPtr (v : value) : bool :=
  match v with VPtr _ => true | _ => false end.

Definition IsNil (v : value) : bool :=
  match v with VPtr None => true | _ => false end.

Definition CanSet (f : StructField) : bool := Exported f.

Definition recursedInto (refTypeField : StructField) (refField : value) : bool :=
  isPtr refField && negb (IsNil refField) && CanSet refTypeField.

(** What one round of the loop of [doParse] does: go on to the next field
    ([continue] or the end of the body), return at once, or panic. *)
Inductive round : Type :=
| Next (field' : value) (calls : list hookCall) (errs : list string)
| Return (field' : value) (calls : list hookCall) (err : error)
| Panic (msg : string).

Section Fields.

(** [Parse(refField.Interface())], line 119. *)
Variable Parse_ : value -> parsed.
Variable prefix : string.
Variable funcMap : CustomParsers.

(** The loop body, lines 117-140. *)
Definition visit (refTypeField : StructField) (refField : value) : round :=
  if recursedInto refTypeField refField then
    match Parse_ refField with
    | Panics msg => Panic msg
    | Returns (field', calls, Some err) => Return field' calls err
    | Returns (field', calls, None) => Next field' calls []
    end
  else
    match populate refField refTypeField prefix funcMap with
    | Panics msg => Panic msg
    | Returns (field', calls, errs) => Next field' calls errs
    end.

(** The loop of [doParse] from field [i] on: [todo] lists the fields
    [i..], [seen] the fields before [i] as the rounds left them. *)
Fixpoint fieldLoop (todo seen : list (StructField * value))
  (calls : list hookCall) (errorList : list string) {struct todo} : parsed :=
  match todo with
  | [] => Returns (VStruct seen, calls, aggregate errorList)
  | (refTypeField, refField) :: rest =>
      match visit refTypeField refField with
      | Next field' calls' errs =>
          fieldLoop rest (seen ++ [(refTypeField, field')])
            (calls ++ calls') (errorList ++ errs)
      | Return field' calls' err =>
          Returns (VStruct (seen ++ (refTypeField, field') :: rest)%list,
                   (calls ++ calls')%list, Some err)
      | Panic msg => Panics msg
      end
  end.

End Fields.

(** Lines 101-109, over the function that parses the struct pointed to. *)
Definition parseWith (doParse_ : value -> string -> CustomParsers -> parsed)
  (v : value) (prefix : string) (funcMap : CustomParsers) : parsed :=
  match v with
  | VPtr (Some ref) =>
      match ref with
      | VStruct _ =>
          match doParse_ ref prefix funcMap with
          | Panics msg => Panics msg
          | Returns (ref', calls, err) => Returns (VPtr (Some ref'), calls, err)
          end
      | _ => Returns (v, [], Some ErrNotAStructPtr)
      end
  | _ => Returns (v, [], Some ErrNotAStructPtr)
  end.

Fixpoint doParse (ref : value) (prefix : string) (funcMap : CustomParsers)
  {struct ref} : parsed :=
  match ref with
  | VStruct fields =>
      fieldLoop (fun v => parseWith doParse v "" noParsers) prefix funcMap
        fields [] [] []
  | _ => Panics "reflect: NumField of non-struct type"
  end.

Definition ParseWithPrefixFuncs (v : value) (prefix : string)
  (funcMap : CustomParsers) : parsed :=
  parseWith doParse v prefix funcMap.

Definition Parse (v : value) : parsed :=
  ParseWithPrefixFuncs v "" noParsers.

Definition ParseWithPrefix (v : value) (prefix : string) : parsed :=
  ParseWithPrefixFuncs v prefix noParsers.

Definition ParseWithFuncs (v : value) (funcMap : CustomParsers) : parsed :=
  ParseWithPrefixFuncs v "" funcMap.

End Engine.

(** ** Notions the properties are stated with *)

(** An option token the resolver knows: ["required"] or the empty token. *)
Definition recognized (opt : string) : bool :=
  String.eqb opt "" || String.eqb opt "required".

(** The input of an entry point is a pointer, not nil, to a struct. *)
Definition isStructPtr (v : value) : bool :=
  match v with
  | VPtr (Some (VStruct _)) => true
  | _ => false
  end.

Definition goesOn (r : round) : bool :=
  match r with Next _ _ _ => true | _ => false end.

Section Notions.

Context `{RT : Runtime}.
Variable e : gmap string string.
Variable prefix : string.
Variable funcMap : CustomParsers.

(** The rounds of the loop over [fields] all go on to the next field:
    [fields'] are the fields as they leave them, [calls] the hook calls
    and [errs] the messages recorded, in order. *)
Inductive visited : list (StructField * value) -> list (StructField * value) ->
                    list hookCall -> list string -> Prop :=
| visited_nil : visited [] [] [] []
| visited_cons (f : StructField) (v v' : value) (calls : list hookCall)
    (errs : list string) (rest rest' : list (StructField * value))
    (calls' : list hookCall) (errs' : list string) :
    visit e (Parse e) prefix funcMap f v = Next v' calls errs ->
    visited rest rest' calls' errs' ->
    visited ((f, v) :: rest) ((f, v') :: rest') (calls ++ calls') (errs ++ errs').

(** The message of a field whose resolution or conversion fails. *)
Definition fieldFailure (fv : StructField * value) : option string :=
  if recursedInto (fst fv) (snd fv) then None
  else
    match get e (fst fv) prefix with
    | (_, Some err) => Some (Error err)
    | (raw, None) =>
        if String.eqb raw "" then None
        else
          match set (snd fv) (fst fv) raw funcMap with
          | Returns (_, Some err) => Some (Error err)
          | _ => None
          end
    end.

(** The value given to a field that resolves and converts successfully. *)
Definition converted (fv : StructField * value) : option value :=
  if recursedInto (fst fv) (snd fv) then None
  else
    match get e (fst fv) prefix with
    | (_, Some _) => None
    | (raw, None) =>
        if String.eqb raw "" then None
        else
          match set (snd fv) (fst fv) raw funcMap with
          | Returns (v, None) => Some v
          | _ => None
          end
    end.

(** The scalar converter of the element types [handleSlice] names. *)
Definition boxed {A : Type} (box : A -> value) (r : result A) : result value :=
  match r with
  | Ok x => Ok (box x)
  | Err err => Err err
  end.

Definition scalarOf (t : typ) : option (string -> result value) :=
  match t with
  | TString => Some (fun s => Ok (VString s))
  | TInt => Some (fun s => boxed VInt (Strconv.ParseInt s 32))
  | TInt64 => Some (fun s => boxed VInt (Strconv.ParseInt s 64))
  | TUint64 => Some (fun s => boxed VUint (Strconv.ParseUint s 64))
  | TFloat32 => Some (fun s => boxed VFloat (ParseFloat s 32))
  | TFloat64 => Some (fun s => boxed VFloat (ParseFloat s 64))
  | TBool => Some (fun s => boxed VBool (Strconv.ParseBool s))
  | TDuration => Some (fun s => boxed VInt (ParseDuration s))
  | TStruct n => if String.eqb n "url.URL" then Some url_Parse else None
  | _ => None
  end.


(** Converting the pieces in order, up to the first that fails. *)
Fixpoint convertAll (conv : string -> result value) (pieces : list string)
  : result (list value) :=
  match pieces with
  | [] => Ok []
  | p :: rest =>
      match conv p with
      | Err err => Err err
      | Ok v =>
          match convertAll conv rest with
          | Err err => Err err
          | Ok vs => Ok (v :: vs)
          end
      end
  end.

End Notions.

(** ** Writing the environment (env.go, lines 45-53)

    [os.Setenv] refuses an empty name, a name that holds [=] or a zero
    byte and a value that holds a zero byte, with the error of the system
    call; [os.Unsetenv] never fails.  Both return the environment they
    leave beside the error. *)

Fixpoint hasByte (c : ascii) (s : string) : bool :=
  match s with
  | EmptyString => false
  | String d s' => Ascii.eqb c d || hasByte c s'
  end.

Definition setenvAccepts (key value : string) : bool :=
  negb (String.eqb key "") && negb (hasByte "=" key)
  && negb (hasByte Ascii.zero key) && negb (hasByte Ascii.zero value).

Definition Set_ (e : gmap string string) (key value : string)
  : gmap string string * option error :=
  if setenvAccepts key value then (Os.Setenv e key value, None)
  else (e, Some (Foreign "setenv: invalid argument")).

Definition Unset_ (e : gmap string string) (key : string)
  : gmap string string * option error :=
  (Os.Unsetenv e key, None).

(** ** Notions the further properties are stated with *)




(** The values of the integer types [set] parses. *)
Definition intRange (t : typ) : option (Z * Z) :=
  match t with
  | TInt => Some (- 2 ^ 31, 2 ^ 31 - 1)
  | TUint => Some (0, 2 ^ 32 - 1)
  | TInt64 => Some (- 2 ^ 63, 2 ^ 63 - 1)
  | TUint64 => Some (0, 2 ^ 64 - 1)
  | _ => None
  end.

Definition integerOf (v : value) : option Z :=
  match v with
  | VInt n | VUint n => Some n
  | _ => None
  end.

(** A field without tags that matter to the resolver: no [env], no
    [envDefault], no expansion. *)
Definition untagged (f : StructField) : bool :=
  String.eqb (TagGet f "env") "" && String.eqb (TagGet f "envDefault") ""
  && negb (String.eqb (Strings.ToLower (TagGet f "envExpand")) "true").

Section MoreNotions.

Context `{RT : Runtime}.
Variable e : gmap string string.
Variable prefix : string.
Variable funcMap : CustomParsers.

(** The hook call made for a field that is resolved, converted and
    assigned. *)
Definition hookOf (fv : StructField * value) : option hookCall :=
  if recursedInto (fst fv) (snd fv) then None
  else
    match get e (fst fv) prefix with
    | (_, Some _) => None
    | (raw, None) =>
        if String.eqb raw "" then None
        else
          match set (snd fv) (fst fv) raw funcMap with
          | Returns (_, None) => Some (fst fv, raw)
          | _ => None
          end
    end.

End MoreNotions.

(** ** A runtime for the examples

    The texts of the examples hold no dollar sign, quote, backslash or
    control byte: on such texts [os.Expand] changes nothing and
    [strconv.Quote] only adds the quotes.  No example parses a float, a
    duration or a URL or has a type with an [UnmarshalText] method. *)

Module Sample.

Definition quote (s : string) : string :=
  Strings.dquote +:+ s +:+ Strings.dquote.

Definition runtime : Runtime := {|
  Quote := quote;
  Expand := fun s _ => s;
  ParseFloat := fun _ _ => Err (Foreign "not used");
  ParseDuration := fun _ => Err (Foreign "not used");
  url_Parse := fun _ => Err (Foreign "not used");
  UnmarshalText := fun _ => None;
  zeroNamed := fun _ => VStruct []
|}.

(** A field with the tag [env:"..."] and, when [dflt] is not empty,
    [envDefault:"..."]. *)
Definition field (name : string) (t : typ) (envTag dflt : string) : StructField :=
  mkField name t true
    (if String.eqb dflt "" then [("env", envTag)]
     else [("env", envTag); ("envDefault", dflt)]).

Definition intField (envTag dflt : string) : StructField :=
  field "Port" TInt envTag dflt.

Definition portUnset : gmap string string := {[ "HOST" := "localhost" ]}.

Definition portEmpty : gmap string string := {[ "PORT" := "" ]}.

Definition port80 : gmap string string := {[ "PORT" := "80" ]}.

(** A record with a string field and a pointer to a nested record that
    has a string field of the same key. *)
Definition nameField : StructField := field "Name" TString "NAME" "".

Definition topField : StructField := field "Top" TString "NAME" "".

Definition innerField : StructField :=
  mkField "Inner" (TPtr (TStruct "Inner")) true [].

Definition outerRecord (top name : string) : value :=
  VPtr (Some (VStruct
    [(topField, VString top);
     (innerField, VPtr (Some (VStruct [(nameField, VString name)])))])).

Definition appEnv : gmap string string :=
  <[ "APP_NAME" := "prefixed" ]> {[ "NAME" := "bare" ]}.

(** A custom parser for strings, which puts the text between brackets. *)
Definition bracket : CustomParsers :=
  fun t =>
    if typ_eqb t TString
    then Some (fun s => (Some (TString, VString ("<" +:+ s +:+ ">")), None))
    else None.

(** The fields of a record in which a string and a slice convert and an
    integer and a boolean fail, and a field that points to an integer. *)
Definition portField : StructField := field "Port" TInt "PORT" "".

Definition debugField : StructField := field "Debug" TBool "NAME,bogus" "".

Definition idsField : StructField := field "Ids" (TSlice TInt) "IDS" "".

Definition countField : StructField := mkField "Count" (TPtr TInt) true [].

Definition mixedFields : list (StructField * value) :=
  [(topField, VString ""); (portField, VInt 0); (debugField, VBool false);
   (idsField, VSlice [])].

Definition mixedEnv : gmap string string :=
  <[ "IDS" := "1,2,3" ]> (<[ "PORT" := "80a" ]> {[ "NAME" := "bare" ]}).

Definition portMessage : string :=
  "strconv.ParseInt: parsing " +:+ quote "80a" +:+ ": invalid syntax".

Definition debugMessage : string :=
  "env tag option " +:+ quote "bogus" +:+ " not supported".



(** A runtime with a user type [Level], held as a string, whose
    [UnmarshalText] keeps the text and refuses the empty one. *)
Definition decodeLevel (current : value) (text : string) : value * option error :=
  if String.eqb text "" then (current, Some (Foreign "empty level"))
  else (VString text, None).

Definition levelRuntime : Runtime := {|
  Quote := quote;
  Expand := fun s _ => s;
  ParseFloat := fun _ _ => Err (Foreign "not used");
  ParseDuration := fun _ => Err (Foreign "not used");
  url_Parse := fun _ => Err (Foreign "not used");
  UnmarshalText :=
    fun t => if typ_eqb t (TOther "Level") then Some decodeLevel else None;
  zeroNamed := fun _ => VString ""
|}.

Definition levelsField : StructField :=
  mkField "Levels" (TSlice (TPtr (TOther "Level"))) true [("env", "LEVELS")].

End Sample.

(** Case analysis on every [match] of a hypothesis. *)
Ltac break_outcome H :=
  repeat match type of H with
         | context [match ?x with _ => _ end] => destruct x eqn:?
         end.

(** * Properties *)

(** ** Environment accessor *)

(** C10. [MustGet] returns the value of a key that is set, the empty
    string included, panics on a key that is not set, and its result never
    depends on [defaultValue]. *)
Theorem MustGet_ignores_default (e : gmap string string) (key defaultValue : string) :
  (forall value, Os.LookupEnv e key = Some value ->
     MustGet e key defaultValue = Returns value) /\
  (Os.LookupEnv e key = None ->
     exists msg, MustGet e key defaultValue = Panics msg) /\
  (forall other, MustGet e key other = MustGet e key defaultValue).
Proof.
  unfold MustGet. split; [|split].
  - intros value ->. reflexivity.
  - intros ->. eexists. reflexivity.
  - reflexivity.
Qed.

Lemma MustGet_ignores_default_witness :
  MustGet Sample.portEmpty "PORT" "8080" = Returns "" /\
  (exists msg, MustGet Sample.portUnset "PORT" "8080" = Panics msg).
Proof.
  split.
  - apply (proj1 (MustGet_ignores_default Sample.portEmpty "PORT" "8080")).
    vm_compute. reflexivity.
  - apply (proj1 (proj2 (MustGet_ignores_default Sample.portUnset "PORT" "8080"))).
    vm_compute. reflexivity.
Defined.

(** ** Field resolver *)

Section Resolver.

Context `{RT : Runtime}.
Variable e : gmap string string.

Lemma applyOption_recognized_after_required (key prefix : string) (opts : list string) :
  forallb recognized opts = true ->
  fold_left (applyOption e key prefix) opts (getRequired e key prefix)
  = getRequired e key prefix.
Proof.
  induction opts as [|opt opts IH]; simpl; [reflexivity|].
  intros H. apply andb_prop in H as [Hopt Hrest].
  unfold applyOption at 2. unfold recognized in Hopt.
  destruct (String.eqb opt ""); [auto|].
  simpl in Hopt. rewrite Hopt. auto.
Qed.

Lemma applyOption_required (key prefix : string) (opts : list string) :
  forallb recognized opts = true ->
  In "required" opts ->
  forall acc,
    fold_left (applyOption e key prefix) opts acc = getRequired e key prefix.
Proof.
  induction opts as [|opt opts IH]; simpl; [intros _ []|].
  intros H Hin acc. apply andb_prop in H as [Hopt Hrest].
  unfold applyOption at 2. unfold recognized in Hopt.
  destruct (String.eqb opt "") eqn:Hempty.
  - destruct Hin as [->|Hin]; [discriminate Hempty|]. auto.
  - simpl in Hopt. rewrite Hopt.
    apply applyOption_recognized_after_required; assumption.
Qed.

Lemma get_required (field : StructField) (prefix key : string) (opts : list string) :
  parseKeyForOption (TagGet field "env") = (key, opts) ->
  forallb recognized opts = true ->
  In "required" opts ->
  get e field prefix = getRequired e key prefix.
Proof.
  intros Hkey Hrec Hin. unfold get. rewrite Hkey.
  apply applyOption_required; assumption.
Qed.

(** C3, amended.  A field whose options are all recognized and include
    ["required"], and whose effective key is not set, fails with
    [RequiredNotSet] on the declared key, whatever its default. *)
Theorem required_unset_fails (field : StructField) (prefix key : string)
  (opts : list string) :
  parseKeyForOption (TagGet field "env") = (key, opts) ->
  forallb recognized opts = true ->
  In "required" opts ->
  Os.LookupEnv e (prefix +:+ key) = None ->
  get e field prefix = ("", Some (RequiredNotSet key)).
Proof.
  intros Hkey Hrec Hin Hunset.
  rewrite (get_required field prefix key opts Hkey Hrec Hin).
  unfold getRequired. rewrite Hunset. reflexivity.
Qed.

(** C8, amended.  A field whose options are all recognized and include
    ["required"], and whose effective key is set to the empty string,
    resolves to the empty string without an error, and its round of the
    loop records no error and leaves the field as it is. *)
Theorem required_empty_ok (field : StructField) (refField : value)
  (prefix key : string) (opts : list string) (funcMap : CustomParsers) :
  parseKeyForOption (TagGet field "env") = (key, opts) ->
  forallb recognized opts = true ->
  In "required" opts ->
  Os.LookupEnv e (prefix +:+ key) = Some "" ->
  get e field prefix = ("", None) /\
  populate e refField field prefix funcMap = Returns (refField, [], []).
Proof.
  intros Hkey Hrec Hin Hset.
  assert (Hget : get e field prefix = ("", None)).
  { rewrite (get_required field prefix key opts Hkey Hrec Hin).
    unfold getRequired. rewrite Hset. reflexivity. }
  split; [exact Hget|].
  unfold populate. rewrite Hget. reflexivity.
Qed.

Lemma applyOption_empty (key prefix : string) (opts : list string) :
  forallb (fun opt => String.eqb opt "") opts = true ->
  forall acc, fold_left (applyOption e key prefix) opts acc = acc.
Proof.
  induction opts as [|opt opts IH]; simpl; [reflexivity|].
  intros H acc. apply andb_prop in H as [Hopt Hrest].
  unfold applyOption at 2. rewrite Hopt. apply IH. exact Hrest.
Qed.

(** A field without options and without expansion, whose effective key
    is not set or is set to the empty string, and whose default is empty,
    resolves to the empty string. *)
Lemma get_nothing (field : StructField) (prefix key : string) (opts : list string) :
  parseKeyForOption (TagGet field "env") = (key, opts) ->
  forallb (fun opt => String.eqb opt "") opts = true ->
  String.eqb (Strings.ToLower (TagGet field "envExpand")) "true" = false ->
  TagGet field "envDefault" = "" ->
  Os.LookupEnv e (prefix +:+ key) = None \/ Os.LookupEnv e (prefix +:+ key) = Some "" ->
  get e field prefix = ("", None).
Proof.
  intros Hkey Hopts Hexpand Hdefault Hlookup. unfold get.
  rewrite Hkey, Hexpand, Hdefault, applyOption_empty by exact Hopts.
  unfold getOrWithPrefix. destruct Hlookup as [-> | ->]; reflexivity.
Qed.

(** X7.  The error of an option that is not recognized is returned when
    only empty tokens follow it. *)
Lemma get_last_option_unsupported (field : StructField) (prefix key opt : string)
  (before after : list string) :
  parseKeyForOption (TagGet field "env") = (key, before ++ opt :: after) ->
  recognized opt = false ->
  forallb (fun o => String.eqb o "") after = true ->
  snd (get e field prefix) = Some (OptionNotSupported opt).
Proof.
  intros Hkey Hopt Hafter. unfold get. rewrite Hkey.
  rewrite fold_left_app. simpl.
  rewrite applyOption_empty by exact Hafter.
  unfold applyOption at 1. unfold recognized in Hopt.
  apply orb_false_elim in Hopt as [-> ->]. reflexivity.
Qed.

End Resolver.

(** C3 as stated fails: with an option that is not recognized after
    ["required"], the error is the one of that option. *)
Lemma required_unset_counterexample :
  ~ (forall (RT : Runtime) (e : gmap string string) (field : StructField)
            (prefix key : string) (opts : list string),
        parseKeyForOption (TagGet field "env") = (key, opts) ->
        In "required" opts ->
        Os.LookupEnv e (prefix +:+ key) = None ->
        snd (get e field prefix) = Some (RequiredNotSet key)).
Proof.
  intros H.
  specialize (H Sample.runtime Sample.portUnset
                (Sample.intField "PORT,required,bogus" "8080")
                "" "PORT" ["required"; "bogus"]).
  assert (Hget : snd (get (RT := Sample.runtime) Sample.portUnset
                        (Sample.intField "PORT,required,bogus" "8080") "")
                 = Some (OptionNotSupported "bogus")) by (vm_compute; reflexivity).
  rewrite Hget in H.
  discriminate H; [reflexivity | left; reflexivity | vm_compute; reflexivity].
Qed.

Lemma required_unset_fails_witness :
  get (RT := Sample.runtime) Sample.portUnset
    (Sample.intField "PORT,required" "8080") "APP_"
  = ("", Some (RequiredNotSet "PORT")).
Proof.
  apply (required_unset_fails Sample.portUnset
           (Sample.intField "PORT,required" "8080") "APP_" "PORT" ["required"]).
  - reflexivity.
  - reflexivity.
  - simpl. left. reflexivity.
  - vm_compute. reflexivity.
Defined.

(** C8 as stated fails: an option that is not recognized after
    ["required"] makes the field fail although the key is set. *)
Lemma required_empty_counterexample :
  ~ (forall (RT : Runtime) (e : gmap string string) (field : StructField)
            (refField : value) (prefix key : string) (opts : list string)
            (funcMap : CustomParsers),
        parseKeyForOption (TagGet field "env") = (key, opts) ->
        In "required" opts ->
        Os.LookupEnv e (prefix +:+ key) = Some "" ->
        exists field' calls,
          populate e refField field prefix funcMap = Returns (field', calls, [])).
Proof.
  intros H.
  destruct (H Sample.runtime Sample.portEmpty
              (Sample.intField "PORT,required,bogus" "") (VInt 0)
              "" "PORT" ["required"; "bogus"] noParsers)
    as (field' & calls & Hpop).
  - reflexivity.
  - left. reflexivity.
  - vm_compute. reflexivity.
  - vm_compute in Hpop. discriminate Hpop.
Qed.

Lemma required_empty_ok_witness :
  get (RT := Sample.runtime) Sample.portEmpty
    (Sample.intField "PORT,required" "8080") "" = ("", None) /\
  populate (RT := Sample.runtime) Sample.portEmpty (VInt 7)
    (Sample.intField "PORT,required" "8080") "" noParsers
  = Returns (VInt 7, [], []).
Proof.
  apply (required_empty_ok Sample.portEmpty
           (Sample.intField "PORT,required" "8080") (VInt 7) "" "PORT"
           ["required"] noParsers).
  - reflexivity.
  - reflexivity.
  - simpl. left. reflexivity.
  - vm_compute. reflexivity.
Defined.

(** C6.  The error of an option that is not recognized is lost when
    ["required"] follows it and the key is set: the field resolves and is
    converted as if the option were not there. *)
Theorem unsupported_option_overwritten :
  get (RT := Sample.runtime) Sample.port80
    (Sample.intField "PORT,bogus,required" "") "" = ("80", None) /\
  Parse (RT := Sample.runtime) Sample.port80
    (VPtr (Some (VStruct [(Sample.intField "PORT,bogus,required" "", VInt 0)])))
  = Returns
      (VPtr (Some (VStruct [(Sample.intField "PORT,bogus,required" "", VInt 80)])),
       [(Sample.intField "PORT,bogus,required" "", "80")], None).
Proof. split; vm_compute; reflexivity. Qed.

(** ** Population engine *)

Section Population.

Context `{RT : Runtime}.
Variable e : gmap string string.

Lemma doParse_fields (fields : list (StructField * value)) (prefix : string)
  (funcMap : CustomParsers) :
  doParse e (VStruct fields) prefix funcMap
  = fieldLoop e (Parse e) prefix funcMap fields [] [] [].
Proof. reflexivity. Qed.

Lemma ParseWithPrefixFuncs_struct (fields : list (StructField * value))
  (prefix : string) (funcMap : CustomParsers) :
  ParseWithPrefixFuncs e (VPtr (Some (VStruct fields))) prefix funcMap
  = match fieldLoop e (Parse e) prefix funcMap fields [] [] [] with
    | Panics msg => Panics msg
    | Returns (ref', calls, err) => Returns (VPtr (Some ref'), calls, err)
    end.
Proof. reflexivity. Qed.

(** The rounds that go on are passed over by the loop, which carries on
    from the state they leave. *)
Lemma fieldLoop_visited (prefix : string) (funcMap : CustomParsers)
  (pre pre' : list (StructField * value)) (cs : list hookCall) (ers : list string) :
  visited e prefix funcMap pre pre' cs ers ->
  forall rest seen calls errorList,
    fieldLoop e (Parse e) prefix funcMap (pre ++ rest) seen calls errorList
    = fieldLoop e (Parse e) prefix funcMap rest (seen ++ pre') (calls ++ cs)
        (errorList ++ ers).
Proof.
  induction 1 as [|f v v' c er rest0 rest0' cs' ers' Hvisit _ IH];
    intros rest seen calls errorList.
  - simpl. rewrite !app_nil_r. reflexivity.
  - simpl. rewrite Hvisit, IH.
    rewrite <- !app_assoc. reflexivity.
Qed.

(** C5.  An input that is not a pointer to a struct fails with
    [ErrNotAStructPtr] at every entry point: the value is returned as it
    was, the hook is not called, and the result is the same whatever the
    environment holds. *)
Theorem not_a_struct_pointer (v : value) (prefix : string) (funcMap : CustomParsers) :
  isStructPtr v = false ->
  ParseWithPrefixFuncs e v prefix funcMap = Returns (v, [], Some ErrNotAStructPtr) /\
  Parse e v = Returns (v, [], Some ErrNotAStructPtr) /\
  ParseWithPrefix e v prefix = Returns (v, [], Some ErrNotAStructPtr) /\
  ParseWithFuncs e v funcMap = Returns (v, [], Some ErrNotAStructPtr) /\
  forall e' : gmap string string,
    ParseWithPrefixFuncs e' v prefix funcMap = ParseWithPrefixFuncs e v prefix funcMap.
Proof.
  intros Hv.
  assert (H : forall e0 p m,
             ParseWithPrefixFuncs e0 v p m = Returns (v, [], Some ErrNotAStructPtr)).
  { intros e0 p m. unfold ParseWithPrefixFuncs, parseWith.
    destruct v as [| | | | | |[[]|]|]; try reflexivity. discriminate Hv. }
  unfold Parse, ParseWithPrefix, ParseWithFuncs.
  repeat split; try apply H. intros e'. rewrite !H. reflexivity.
Qed.

(** C9.  A field that is resolved (not recursed into) and whose
    resolution gives the empty string without an error: its round records
    no error, calls no converter, whatever the custom parsers are, and
    leaves the field as it is; the loop goes on from an unchanged state. *)
Theorem empty_resolution_skips (P : value -> parsed) (f : StructField) (v : value)
  (prefix : string) (funcMap : CustomParsers) :
  recursedInto f v = false ->
  get e f prefix = ("", None) ->
  visit e P prefix funcMap f v = Next v [] [] /\
  forall rest seen calls errorList,
    fieldLoop e P prefix funcMap ((f, v) :: rest) seen calls errorList
    = fieldLoop e P prefix funcMap rest (seen ++ [(f, v)]) calls errorList.
Proof.
  intros Hrec Hget.
  assert (Hvisit : visit e P prefix funcMap f v = Next v [] []).
  { unfold visit, populate. rewrite Hrec, Hget. reflexivity. }
  split; [exact Hvisit|].
  intros rest seen calls errorList. simpl. rewrite Hvisit, !app_nil_r.
  reflexivity.
Qed.

(** A settable pointer to something that is not a struct stops the loop. *)
Lemma visit_pointer_to_non_struct (prefix : string) (funcMap : CustomParsers)
  (f : StructField) (target : value) :
  Exported f = true ->
  isStructPtr (VPtr (Some target)) = false ->
  visit e (Parse e) prefix funcMap f (VPtr (Some target))
  = Return (VPtr (Some target)) [] ErrNotAStructPtr.
Proof.
  intros Hexp Htarget. unfold visit, recursedInto, CanSet. simpl.
  rewrite Hexp. simpl.
  destruct target; try reflexivity. discriminate Htarget.
Qed.

(** C4.  When the loop reaches a settable, non-nil pointer field whose
    target is not a struct, the parse returns [ErrNotAStructPtr] alone:
    the messages [ers] recorded for the fields before it are dropped and
    the fields after it are left as they were. *)
Theorem pointer_to_non_struct_aborts (prefix : string) (funcMap : CustomParsers)
  (pre pre' post : list (StructField * value)) (cs : list hookCall)
  (ers : list string) (f : StructField) (target : value) :
  visited e prefix funcMap pre pre' cs ers ->
  Exported f = true ->
  isStructPtr (VPtr (Some target)) = false ->
  ParseWithPrefixFuncs e
    (VPtr (Some (VStruct (pre ++ (f, VPtr (Some target)) :: post)))) prefix funcMap
  = Returns
      (VPtr (Some (VStruct (pre' ++ (f, VPtr (Some target)) :: post))),
       cs, Some ErrNotAStructPtr).
Proof.
  intros Hpre Hexp Htarget.
  rewrite ParseWithPrefixFuncs_struct.
  rewrite (fieldLoop_visited prefix funcMap pre pre' cs ers Hpre).
  simpl fieldLoop.
  rewrite (visit_pointer_to_non_struct prefix funcMap f target Hexp Htarget).
  rewrite app_nil_r. reflexivity.
Qed.

(** The round of a field that is recursed into reads neither the prefix
    nor the custom parsers of the call. *)
Lemma nested_round_ignores_prefix_and_parsers (prefix : string)
  (funcMap : CustomParsers) (f : StructField) (v : value) :
  recursedInto f v = true ->
  visit e (Parse e) prefix funcMap f v = visit e (Parse e) "" noParsers f v.
Proof. intros Hrec. unfold visit. rewrite Hrec. reflexivity. Qed.

(** X15.  An error of the recursive call is returned at once, as it is:
    the messages recorded for the earlier fields are dropped, the earlier
    fields keep what their rounds gave them and the later fields are left
    as they were. *)
Lemma nested_error_short_circuits (prefix : string) (funcMap : CustomParsers)
  (pre pre' post : list (StructField * value)) (cs calls : list hookCall)
  (ers : list string) (f : StructField) (v v' : value) (err : error) :
  visited e prefix funcMap pre pre' cs ers ->
  recursedInto f v = true ->
  Parse e v = Returns (v', calls, Some err) ->
  ParseWithPrefixFuncs e (VPtr (Some (VStruct (pre ++ (f, v) :: post))))
    prefix funcMap
  = Returns (VPtr (Some (VStruct (pre' ++ (f, v') :: post))), cs ++ calls, Some err).
Proof.
  intros Hpre Hrec Hparse.
  rewrite ParseWithPrefixFuncs_struct.
  rewrite (fieldLoop_visited prefix funcMap pre pre' cs ers Hpre).
  simpl fieldLoop. unfold visit. rewrite Hrec, Hparse. reflexivity.
Qed.

Lemma visit_next (prefix : string) (funcMap : CustomParsers) (f : StructField)
  (v v' : value) (calls : list hookCall) (errs : list string) :
  visit e (Parse e) prefix funcMap f v = Next v' calls errs ->
  errs = option_list (fieldFailure e prefix funcMap (f, v)) /\
  (forall x, converted e prefix funcMap (f, v) = Some x -> v' = x).
Proof.
  unfold visit, fieldFailure, converted, populate. simpl.
  destruct (recursedInto f v).
  - destruct (Parse e v) as [[[? ?] [?|]]|]; intros H; inversion H; subst.
    split; [reflexivity | discriminate].
  - destruct (get e f prefix) as [raw [err|]].
    + intros H; inversion H; subst. split; [reflexivity | discriminate].
    + destruct (String.eqb raw "").
      * intros H; inversion H; subst. split; [reflexivity | discriminate].
      * destruct (set v f raw funcMap) as [[? [?|]]|];
          intros H; inversion H; subst;
          (split; [reflexivity | intros x Hx; congruence]).
Qed.

Lemma visited_total (prefix : string) (funcMap : CustomParsers)
  (fields : list (StructField * value)) :
  forallb (fun fv => goesOn (visit e (Parse e) prefix funcMap (fst fv) (snd fv)))
    fields = true ->
  exists fields' calls errs, visited e prefix funcMap fields fields' calls errs.
Proof.
  induction fields as [|[f v] rest IH]; simpl.
  - intros _. exists [], [], []. constructor.
  - intros H. apply andb_prop in H as [Hhead Hrest].
    destruct (IH Hrest) as (rest' & cs & ers & Hvisited).
    destruct (visit e (Parse e) prefix funcMap f v) as [v' c er| |] eqn:Hvisit;
      try discriminate Hhead.
    exists ((f, v') :: rest'), (c ++ cs), (er ++ ers).
    econstructor; eassumption.
Qed.

Lemma visited_outcome (prefix : string) (funcMap : CustomParsers)
  (fields fields' : list (StructField * value)) (calls : list hookCall)
  (errs : list string) :
  visited e prefix funcMap fields fields' calls errs ->
  errs = omap (fieldFailure e prefix funcMap) fields /\
  map fst fields' = map fst fields /\
  (forall (i : nat) fv x,
      fields !! i = Some fv ->
      converted e prefix funcMap fv = Some x ->
      fields' !! i = Some (fst fv, x)).
Proof.
  induction 1 as [|f v v' c er rest rest' cs ers Hvisit _ (IHe & IHm & IHc)].
  - repeat split. intros i fv x Hi. discriminate Hi.
  - destruct (visit_next _ _ _ _ _ _ _ Hvisit) as [Her Hconv].
    split; [|split].
    + simpl. subst er ers.
      destruct (fieldFailure e prefix funcMap (f, v)); reflexivity.
    + simpl. f_equal. exact IHm.
    + intros [|i] fv x Hi Hx; simpl in *.
      * inversion Hi; subst fv. rewrite (Hconv x Hx). reflexivity.
      * eapply IHc; eassumption.
Qed.

(** C2.  When every round of the loop goes on to the next field (no
    recursive call fails, nothing panics), the parse returns the record
    with every field that resolves and converts successfully holding its
    converted value, and its error is made of the messages of the fields
    that fail, in field order, joined by [". "]: none when no field fails. *)
Theorem errors_aggregated (fields : list (StructField * value)) (prefix : string)
  (funcMap : CustomParsers) :
  forallb (fun fv => goesOn (visit e (Parse e) prefix funcMap (fst fv) (snd fv)))
    fields = true ->
  exists fields' calls,
    ParseWithPrefixFuncs e (VPtr (Some (VStruct fields))) prefix funcMap
    = Returns
        (VPtr (Some (VStruct fields')), calls,
         match omap (fieldFailure e prefix funcMap) fields with
         | [] => None
         | msgs => Some (Aggregate (Strings.Join msgs ". "))
         end) /\
    map fst fields' = map fst fields /\
    (forall (i : nat) fv x,
        fields !! i = Some fv ->
        converted e prefix funcMap fv = Some x ->
        fields' !! i = Some (fst fv, x)).
Proof.
  intros Hgo.
  destruct (visited_total prefix funcMap fields Hgo) as (fields' & calls & errs & Hv).
  destruct (visited_outcome prefix funcMap fields fields' calls errs Hv)
    as (Herrs & Hnames & Hconv).
  exists fields', calls. split; [|split; assumption].
  rewrite ParseWithPrefixFuncs_struct.
  pose proof (fieldLoop_visited prefix funcMap fields fields' calls errs Hv
                [] [] [] []) as Hloop.
  rewrite app_nil_r in Hloop. rewrite Hloop. simpl.
  rewrite <- Herrs. destruct errs; reflexivity.
Qed.

End Population.

Lemma not_a_struct_pointer_witness :
  Parse (RT := Sample.runtime) Sample.appEnv (VPtr (Some (VInt 3)))
  = Returns (VPtr (Some (VInt 3)), [], Some ErrNotAStructPtr).
Proof.
  apply (not_a_struct_pointer (RT := Sample.runtime) Sample.appEnv
           (VPtr (Some (VInt 3))) "" noParsers).
  reflexivity.
Defined.

Lemma empty_resolution_skips_witness :
  visit (RT := Sample.runtime) Sample.portUnset
    (Parse (RT := Sample.runtime) Sample.portUnset) "" noParsers
    Sample.portField (VInt 7)
  = Next (VInt 7) [] [].
Proof.
  apply (empty_resolution_skips (RT := Sample.runtime) Sample.portUnset
           (Parse (RT := Sample.runtime) Sample.portUnset)
           Sample.portField (VInt 7) "" noParsers).
  - reflexivity.
  - vm_compute. reflexivity.
Defined.

Lemma pointer_to_non_struct_aborts_witness :
  ParseWithPrefixFuncs (RT := Sample.runtime) Sample.mixedEnv
    (VPtr (Some (VStruct
       [(Sample.portField, VInt 0);
        (Sample.countField, VPtr (Some (VInt 5)));
        (Sample.topField, VString "")])))
    "" noParsers
  = Returns
      (VPtr (Some (VStruct
         [(Sample.portField, VInt 0);
          (Sample.countField, VPtr (Some (VInt 5)));
          (Sample.topField, VString "")])),
       [], Some ErrNotAStructPtr).
Proof.
  apply (pointer_to_non_struct_aborts (RT := Sample.runtime) Sample.mixedEnv
           "" noParsers
           [(Sample.portField, VInt 0)] [(Sample.portField, VInt 0)]
           [(Sample.topField, VString "")] [] [Sample.portMessage]
           Sample.countField (VInt 5)).
  - apply (visited_cons Sample.mixedEnv "" noParsers Sample.portField
             (VInt 0) (VInt 0) [] [Sample.portMessage] [] [] [] []).
    + vm_compute. reflexivity.
    + apply visited_nil.
  - reflexivity.
  - reflexivity.
Defined.

Lemma errors_aggregated_witness :
  exists fields' calls,
    ParseWithPrefixFuncs (RT := Sample.runtime) Sample.mixedEnv
      (VPtr (Some (VStruct Sample.mixedFields))) "" noParsers
    = Returns
        (VPtr (Some (VStruct fields')), calls,
         match omap (fieldFailure (RT := Sample.runtime) Sample.mixedEnv "" noParsers)
                 Sample.mixedFields with
         | [] => None
         | msgs => Some (Aggregate (Strings.Join msgs ". "))
         end) /\
    map fst fields' = map fst Sample.mixedFields /\
    (forall (i : nat) fv x,
        Sample.mixedFields !! i = Some fv ->
        converted (RT := Sample.runtime) Sample.mixedEnv "" noParsers fv = Some x ->
        fields' !! i = Some (fst fv, x)).
Proof.
  apply (errors_aggregated (RT := Sample.runtime) Sample.mixedEnv
           Sample.mixedFields "" noParsers).
  vm_compute. reflexivity.
Defined.

(** The record of the witness above: two fields are given their values,
    two fail, and the error joins the two messages in field order. *)
Example mixed_record_parse :
  ParseWithPrefixFuncs (RT := Sample.runtime) Sample.mixedEnv
    (VPtr (Some (VStruct Sample.mixedFields))) "" noParsers
  = Returns
      (VPtr (Some (VStruct
         [(Sample.topField, VString "bare"); (Sample.portField, VInt 0);
          (Sample.debugField, VBool false);
          (Sample.idsField, VSlice [VInt 1; VInt 2; VInt 3])])),
       [(Sample.topField, "bare"); (Sample.idsField, "1,2,3")],
       Some (Aggregate (Sample.portMessage +:+ ". " +:+ Sample.debugMessage))).
Proof. vm_compute. reflexivity. Qed.

(** C1.  The recursive call is [Parse], which passes on neither the prefix
    nor the custom parsers: under the prefix ["APP_"] and a custom parser
    for strings, the field of the outer record is read from [APP_NAME] and
    converted by the custom parser, the field of the nested record is read
    from [NAME] and converted by the built-in one. *)
Theorem nested_parse_drops_prefix_and_parsers :
  ParseWithPrefixFuncs (RT := Sample.runtime) Sample.appEnv
    (Sample.outerRecord "" "") "APP_" Sample.bracket
  = Returns
      (Sample.outerRecord "<prefixed>" "bare",
       [(Sample.topField, "prefixed"); (Sample.nameField, "bare")], None).
Proof. vm_compute. reflexivity. Qed.

(** ** Strings *)

Lemma Split_not_empty (s sep : string) :
  sep <> "" -> Strings.Split s sep = Strings.genSplit sep O [] s.
Proof. destruct sep; [congruence | reflexivity]. Qed.

Section SplitJoin.

Variable sep : string.
Hypothesis sep_not_empty : sep <> "".

Lemma genSplit_not_nil (skip : nat) (cur : list ascii) (s : string) :
  Strings.genSplit sep skip cur s <> [].
Proof.
  revert skip cur. induction s as [|c s IH]; intros skip cur;
    cbn [Strings.genSplit].
  - discriminate.
  - destruct skip; [|apply IH].
    destruct (Strings.HasPrefix (String c s) sep); [discriminate | apply IH].
Qed.

Lemma genSplit_skip (s : string) :
  forall (skip : nat) (cur : list ascii),
    (skip <= String.length s)%nat ->
    Strings.genSplit sep skip cur s
    = Strings.genSplit sep O cur (Strings.drop skip s).
Proof.
  induction s as [|c s IH]; intros skip cur Hlen.
  - destruct skip; [reflexivity | simpl in Hlen; lia].
  - destruct skip; [reflexivity|].
    simpl in Hlen. simpl Strings.drop. rewrite <- IH by lia. reflexivity.
Qed.

Lemma append_cons (a : ascii) (s t : string) :
  String a s +:+ t = String a (s +:+ t).
Proof. reflexivity. Qed.

Lemma append_nil_l (t : string) : "" +:+ t = t.
Proof. reflexivity. Qed.

Lemma append_assoc (a b c : string) : (a +:+ b) +:+ c = a +:+ (b +:+ c).
Proof.
  induction a as [|x a IH]; [reflexivity|].
  rewrite !append_cons, IH. reflexivity.
Qed.

Lemma append_empty_r (a : string) : a +:+ "" = a.
Proof.
  induction a as [|x a IH]; [reflexivity|].
  rewrite append_cons, IH. reflexivity.
Qed.

Lemma HasPrefix_drop (p s : string) :
  Strings.HasPrefix s p = true ->
  s = p +:+ Strings.drop (String.length p) s /\
  (String.length p <= String.length s)%nat.
Proof.
  revert s. induction p as [|a p IH]; intros s.
  - intros _. simpl. split; [reflexivity | lia].
  - destruct s as [|c s]; simpl; [intros H; discriminate H|].
    destruct (Ascii.eqb a c) eqn:Hac; [|intros H; discriminate H].
    apply Ascii.eqb_eq in Hac. subst c. intros Hp.
    destruct (IH s Hp) as [Heq Hlen]. split; [|lia].
    rewrite append_cons. f_equal. exact Heq.
Qed.

Lemma Join_cons (x : string) (l : list string) :
  l <> [] -> Strings.Join (x :: l) sep = x +:+ sep +:+ Strings.Join l sep.
Proof. destruct l; [congruence | reflexivity]. Qed.

Lemma string_of_app (l : list ascii) (c : ascii) (s : string) :
  string_of_list_ascii (l ++ [c]) +:+ s = string_of_list_ascii l +:+ String c s.
Proof.
  induction l as [|a l IH]; simpl; [reflexivity|].
  rewrite !append_cons, IH. reflexivity.
Qed.

Lemma length_drop (n : nat) (s : string) :
  String.length (Strings.drop n s) = (String.length s - n)%nat.
Proof.
  revert s. induction n as [|n IH]; intros s; simpl; [lia|].
  destruct s as [|c s]; simpl; [reflexivity | apply IH].
Qed.

Lemma Join_genSplit (n : nat) :
  forall (s : string) (cur : list ascii),
    (String.length s <= n)%nat ->
    Strings.Join (Strings.genSplit sep O cur s) sep
    = string_of_list_ascii (rev cur) +:+ s.
Proof.
  induction n as [|n IH]; intros s cur Hlen.
  - destruct s; [|simpl in Hlen; lia]. simpl. symmetry. apply append_empty_r.
  - destruct s as [|c s]; [simpl; symmetry; apply append_empty_r|].
    cbn [Strings.genSplit].
    destruct (Strings.HasPrefix (String c s) sep) eqn:Hp.
    + rewrite Join_cons by apply genSplit_not_nil.
      destruct (HasPrefix_drop sep (String c s) Hp) as [Heq Hle].
      rewrite genSplit_skip.
      * rewrite IH.
        -- rewrite Heq at 1. simpl rev. rewrite append_nil_l.
           f_equal. f_equal.
           destruct sep as [|a sep']; [congruence|]. reflexivity.
        -- rewrite length_drop. simpl in Hlen. lia.
      * destruct sep as [|a sep']; [congruence|]. simpl in *. lia.
    + rewrite IH by (simpl in Hlen; lia). simpl rev. apply string_of_app.
Qed.

(** Joining the pieces of a split with the separator gives the text
    back: no piece is dropped, the empty ones included. *)
Lemma Join_Split (s : string) : Strings.Join (Strings.Split s sep) sep = s.
Proof.
  rewrite Split_not_empty by exact sep_not_empty.
  apply (Join_genSplit (String.length s)). lia.
Qed.

End SplitJoin.

(** ** Conversion *)

Section Conversion.

Context `{RT : Runtime}.
Variable e : gmap string string.

Lemma typ_eqb_refl (t : typ) : typ_eqb t t = true.
Proof.
  induction t; simpl; try reflexivity; try assumption; apply String.eqb_refl.
Qed.

Lemma fieldSet_exported (refType : StructField) (val : value) :
  Exported refType = true ->
  fieldSet refType (Type_ refType) val = Returns (val, None).
Proof.
  intros Hexp. unfold fieldSet. rewrite Hexp, typ_eqb_refl. reflexivity.
Qed.

(** The loop of the [parse...s] functions against the conversion of the
    pieces one after the other. *)
Lemma parseEach_convertAll {A : Type} (conv : string -> result A)
  (box : A -> value) (data : list string) :
  forall slice : list A,
    match parseEach conv data slice with
    | Ok l => Ok (map box l)
    | Err err => Err err
    end
    = match convertAll (fun s => boxed box (conv s)) data with
      | Ok vs => Ok (map box slice ++ vs)
      | Err err => Err err
      end.
Proof.
  induction data as [|v rest IH]; intros slice; simpl.
  - rewrite app_nil_r. reflexivity.
  - destruct (conv v) as [x|err]; simpl; [|reflexivity].
    rewrite IH.
    destruct (convertAll (fun s => boxed box (conv s)) rest) as [vs|err];
      [|reflexivity].
    rewrite map_app, <- app_assoc. reflexivity.
Qed.

Lemma setSlice_convertAll {A : Type} (field : value) (refType : StructField)
  (conv : string -> result A) (box : A -> value) (data : list string) :
  Exported refType = true ->
  setSlice field refType (parseEach conv data []) box
  = match convertAll (fun s => boxed box (conv s)) data with
    | Ok vs => Returns (VSlice vs, None)
    | Err err => Returns (field, Some err)
    end.
Proof.
  intros Hexp. unfold setSlice.
  pose proof (parseEach_convertAll conv box data []) as H.
  destruct (parseEach conv data []) as [l|err];
    destruct (convertAll (fun s => boxed box (conv s)) data) as [vs|err'];
    simpl in H; try discriminate H.
  - inversion H; subst vs. apply fieldSet_exported. exact Hexp.
  - inversion H; subst err'. reflexivity.
Qed.

Lemma convertAll_strings (data : list string) :
  convertAll (fun s => Ok (VString s)) data = Ok (map VString data).
Proof.
  induction data as [|v rest IH]; simpl; [reflexivity|].
  rewrite IH. reflexivity.
Qed.

Lemma convertAll_ext (f g : string -> result value) (data : list string) :
  (forall s, f s = g s) -> convertAll f data = convertAll g data.
Proof.
  intros Hfg. induction data as [|v rest IH]; simpl; [reflexivity|].
  rewrite Hfg, IH. reflexivity.
Qed.

Lemma boxed_id (r : result value) : boxed (fun u => u) r = r.
Proof. destruct r; reflexivity. Qed.

Lemma map_id_value (l : list value) : map (fun u => u) l = l.
Proof. induction l as [|x l IH]; simpl; [reflexivity | rewrite IH; reflexivity]. Qed.

(** What [handleSlice] does for the element types it names. *)
Lemma handleSlice_convertAll (field : value) (refType : StructField)
  (raw separator : string) (t : typ) (conv : string -> result value) :
  Type_ refType = TSlice t ->
  scalarOf t = Some conv ->
  Exported refType = true ->
  handleSlice field refType raw separator
  = match convertAll conv
            (Strings.Split raw (if String.eqb separator "" then "," else separator))
    with
    | Ok vs => Returns (VSlice vs, None)
    | Err err => Returns (field, Some err)
    end.
Proof.
  intros Htype Hconv Hexp. unfold handleSlice. rewrite Htype.
  set (pieces := Strings.Split raw _).
  destruct t; simpl in Hconv; try discriminate Hconv;
    try (inversion Hconv; subst conv; clear Hconv).
  - rewrite convertAll_strings. rewrite <- Htype.
    apply fieldSet_exported. exact Hexp.
  - apply setSlice_convertAll. exact Hexp.
  - apply setSlice_convertAll. exact Hexp.
  - apply setSlice_convertAll. exact Hexp.
  - apply setSlice_convertAll. exact Hexp.
  - apply setSlice_convertAll. exact Hexp.
  - apply setSlice_convertAll. exact Hexp.
  - apply setSlice_convertAll. exact Hexp.
  - destruct (String.eqb name "url.URL") eqn:Hname; [|discriminate Hconv].
    inversion Hconv; subst conv. simpl. rewrite Hname.
    unfold parseUrls. rewrite setSlice_convertAll by exact Hexp.
    rewrite (convertAll_ext _ url_Parse) by (intros s; apply boxed_id).
    reflexivity.
Qed.

Lemma convertAll_Ok (conv : string -> result value) (pieces : list string)
  (vs : list value) :
  convertAll conv pieces = Ok vs <-> Forall2 (fun p v => conv p = Ok v) pieces vs.
Proof.
  revert vs. induction pieces as [|p rest IH]; intros vs; simpl.
  - split.
    + intros H; inversion H; constructor.
    + intros H; inversion H; reflexivity.
  - destruct (conv p) as [v|err] eqn:Hp.
    + destruct (convertAll conv rest) as [ws|err] eqn:Hrest.
      * split.
        -- intros H; inversion H; subst vs. constructor; [exact Hp|].
           apply IH. reflexivity.
        -- intros H; inversion H as [|? v0 ? ws0 Hv Hws]; subst.
           apply IH in Hws. congruence.
      * split; [discriminate|].
        intros H; inversion H as [|? v0 ? ws0 Hv Hws]; subst.
        apply IH in Hws. discriminate Hws.
    + split; [discriminate|].
      intros H; inversion H; subst. congruence.
Qed.

(** The error of [convertAll] is that of the first piece that fails. *)
Lemma convertAll_Err (conv : string -> result value) (pieces : list string)
  (err : error) :
  convertAll conv pieces = Err err <->
  exists pre piece post,
    pieces = pre ++ piece :: post /\
    Forall (fun p => exists v, conv p = Ok v) pre /\
    conv piece = Err err.
Proof.
  induction pieces as [|p rest IH]; simpl.
  - split; [discriminate|].
    intros (pre & piece & post & Heq & _). destruct pre; discriminate Heq.
  - destruct (conv p) as [v|err0] eqn:Hp.
    + split.
      * intros H.
        assert (Hrest : convertAll conv rest = Err err)
          by (destruct (convertAll conv rest); inversion H; reflexivity).
        apply IH in Hrest as (pre & piece & post & Heq & Hpre & Hpiece).
        exists (p :: pre), piece, post. subst rest.
        split; [reflexivity|]. split; [|exact Hpiece].
        constructor; [exists v; exact Hp | exact Hpre].
      * intros (pre & piece & post & Heq & Hpre & Hpiece).
        destruct pre as [|q pre]; simpl in Heq; inversion Heq; subst.
        -- congruence.
        -- inversion Hpre; subst.
           assert (Hrest : convertAll conv (pre ++ piece :: post) = Err err)
             by (apply IH; eauto 6).
           rewrite Hrest. reflexivity.
    + split.
      * intros H; inversion H; subst err0.
        exists [], p, rest. split; [reflexivity|]. split; [constructor | exact Hp].
      * intros (pre & piece & post & Heq & Hpre & Hpiece).
        destruct pre as [|q pre]; simpl in Heq; inversion Heq; subst.
        -- congruence.
        -- inversion Hpre as [|? ? [v Hv] ?]; subst. congruence.
Qed.


Lemma parseEach_values (conv : string -> result value) (data : list string) :
  parseEach conv data [] = convertAll conv data.
Proof.
  pose proof (parseEach_convertAll conv (fun u => u) data []) as H.
  rewrite (convertAll_ext _ conv) in H by (intros s; apply boxed_id).
  destruct (parseEach conv data []) as [l|err];
    destruct (convertAll conv data) as [vs|err']; simpl in H;
    try discriminate H; inversion H; subst.
  - rewrite map_id_value. reflexivity.
  - reflexivity.
Qed.

(** What [handleSlice] does for the other element types. *)
Lemma handleSlice_decode (field : value) (refType : StructField)
  (raw separator : string) (t : typ) :
  Type_ refType = TSlice t ->
  scalarOf t = None ->
  Exported refType = true ->
  handleSlice field refType raw separator
  = match UnmarshalText (decodeTarget t) with
    | None => Returns (field, Some ErrUnsupportedSliceType)
    | Some um =>
        match convertAll (decodeElem t um)
                (Strings.Split raw (if String.eqb separator "" then "," else separator))
        with
        | Ok vs => Returns (VSlice vs, None)
        | Err err => Returns (field, Some err)
        end
    end.
Proof.
  intros Htype Hconv Hexp. unfold handleSlice. rewrite Htype.
  set (pieces := Strings.Split raw _).
  assert (Hdecode : forall um,
             parseTextUnmarshalers field refType t um pieces
             = match convertAll (decodeElem t um) pieces with
               | Ok vs => Returns (VSlice vs, None)
               | Err err => Returns (field, Some err)
               end).
  { intros um. unfold parseTextUnmarshalers. rewrite parseEach_values.
    destruct (convertAll (decodeElem t um) pieces); [|reflexivity].
    apply fieldSet_exported. exact Hexp. }
  destruct t; simpl in Hconv; try discriminate Hconv; simpl;
    try (destruct (UnmarshalText _); [apply Hdecode | reflexivity]).
  destruct (String.eqb name "url.URL"); [discriminate Hconv|].
  destruct (UnmarshalText _); [apply Hdecode | reflexivity].
Qed.

Lemma set_slice (field : value) (refType : StructField) (raw : string)
  (funcMap : CustomParsers) (t : typ) :
  Type_ refType = TSlice t ->
  funcMap (TSlice t) = None ->
  set field refType raw funcMap
  = handleSlice field refType raw (TagGet refType "envSeparator").
Proof. intros Htype Hmap. unfold set. rewrite Htype, Hmap. reflexivity. Qed.


End Conversion.



(** * Further properties *)

(** ** Writing and reading the environment *)

Lemma setenvAccepts_name (key value : string) :
  setenvAccepts key value = true -> String.eqb key "" = false.
Proof.
  unfold setenvAccepts. intros H.
  destruct (String.eqb key ""); [discriminate H | reflexivity].
Qed.

(** X1.  A variable written with [Set] is read back by [Get], [GetOr] and
    [MustGet], whatever the default, and the other variables are left as
    they were. *)
Theorem Set_then_read (e : gmap string string) (key value defaultValue : string) :
  setenvAccepts key value = true ->
  snd (Set_ e key value) = None /\
  Get (fst (Set_ e key value)) key = value /\
  GetOr (fst (Set_ e key value)) key defaultValue = value /\
  MustGet (fst (Set_ e key value)) key defaultValue = Returns value /\
  (forall other, other <> key ->
     Os.LookupEnv (fst (Set_ e key value)) other = Os.LookupEnv e other).
Proof.
  intros Hok. pose proof (setenvAccepts_name key value Hok) as Hname.
  unfold Set_. rewrite Hok. simpl.
  assert (Hread : Os.LookupEnv (Os.Setenv e key value) key = Some value).
  { unfold Os.LookupEnv, Os.Setenv. rewrite Hname. apply lookup_insert_eq. }
  unfold Get, Os.Getenv, GetOr, MustGet. rewrite Hread. simpl.
  repeat split.
  intros other Hother. unfold Os.LookupEnv, Os.Setenv.
  destruct (String.eqb other ""); [reflexivity|].
  apply lookup_insert_ne. congruence.
Qed.

Lemma Set_then_read_witness :
  MustGet (fst (Set_ Sample.portUnset "PORT" "")) "PORT" "8080" = Returns "".
Proof.
  apply (proj1 (proj2 (proj2 (proj2
           (Set_then_read Sample.portUnset "PORT" "" "8080" eq_refl))))).
Defined.

(** X2.  [Unset] never fails; afterwards [Get] gives the empty string,
    [GetOr] its default and [MustGet] panics, and the other variables are
    left as they were. *)
Theorem Unset_then_read (e : gmap string string) (key defaultValue : string) :
  snd (Unset_ e key) = None /\
  Get (fst (Unset_ e key)) key = "" /\
  GetOr (fst (Unset_ e key)) key defaultValue = defaultValue /\
  (exists msg, MustGet (fst (Unset_ e key)) key defaultValue = Panics msg) /\
  (forall other, other <> key ->
     Os.LookupEnv (fst (Unset_ e key)) other = Os.LookupEnv e other).
Proof.
  simpl.
  assert (Hread : Os.LookupEnv (Os.Unsetenv e key) key = None).
  { unfold Os.LookupEnv, Os.Unsetenv.
    destruct (String.eqb key ""); [reflexivity | apply lookup_delete_eq]. }
  unfold Get, Os.Getenv, GetOr, MustGet. rewrite Hread. simpl.
  repeat split.
  - eexists. reflexivity.
  - intros other Hother. unfold Os.LookupEnv, Os.Unsetenv.
    destruct (String.eqb other ""); [reflexivity|].
    apply lookup_delete_ne. congruence.
Qed.

Lemma Unset_then_read_witness :
  Os.LookupEnv (fst (Unset_ Sample.mixedEnv "PORT")) "IDS"
  = Os.LookupEnv Sample.mixedEnv "IDS".
Proof.
  apply (proj2 (proj2 (proj2 (proj2
           (Unset_then_read Sample.mixedEnv "PORT" "")))) "IDS").
  discriminate.
Defined.

(** ** Field resolver *)

Lemma hasByte_string_of (c : ascii) (l : list ascii) :
  hasByte c (string_of_list_ascii l) = existsb (Ascii.eqb c) l.
Proof.
  induction l as [|d l IH]; simpl; [reflexivity | rewrite IH; reflexivity].
Qed.

Lemma existsb_rev_cons (c d : ascii) (cur : list ascii) :
  existsb (Ascii.eqb c) (rev (d :: cur))
  = existsb (Ascii.eqb c) (rev cur) || Ascii.eqb c d.
Proof. simpl. rewrite existsb_app. simpl. rewrite orb_false_r. reflexivity. Qed.

Lemma HasPrefix_comma (c : ascii) (s : string) :
  Strings.HasPrefix (String c s) "," = Ascii.eqb "," c.
Proof.
  cbn [Strings.HasPrefix].
  destruct (Ascii.eqb "," c); [destruct s|]; reflexivity.
Qed.

(** No piece of a split on commas holds a comma. *)
Lemma genSplit_comma_pieces (s : string) :
  forall cur : list ascii,
    existsb (Ascii.eqb ",") (rev cur) = false ->
    forallb (fun piece => negb (hasByte "," piece))
      (Strings.genSplit "," O cur s) = true.
Proof.
  induction s as [|c s IH]; intros cur Hcur; cbn [Strings.genSplit].
  - simpl. rewrite hasByte_string_of, Hcur. reflexivity.
  - rewrite HasPrefix_comma. destruct (Ascii.eqb "," c) eqn:Hc.
    + simpl. rewrite hasByte_string_of, Hcur. simpl. apply IH. reflexivity.
    + apply IH. rewrite existsb_rev_cons, Hcur, Hc. reflexivity.
Qed.

(** A text without a comma is the only piece of its split. *)
Lemma genSplit_comma_none (s : string) :
  forall cur : list ascii,
    hasByte "," s = false ->
    Strings.genSplit "," O cur s = [string_of_list_ascii (rev cur) +:+ s].
Proof.
  induction s as [|c s IH]; intros cur Hs; cbn [Strings.genSplit].
  - rewrite append_empty_r. reflexivity.
  - cbn [hasByte] in Hs. apply orb_false_elim in Hs as [Hc Hs].
    rewrite HasPrefix_comma, Hc, IH by exact Hs.
    simpl rev. rewrite string_of_app. reflexivity.
Qed.

Lemma parseKeyForOption_pieces (tag : string) :
  fst (parseKeyForOption tag) :: snd (parseKeyForOption tag)
  = Strings.Split tag ",".
Proof.
  unfold parseKeyForOption. simpl.
  pose proof (genSplit_not_nil "," O [] tag) as Hnil.
  change (Strings.Split tag ",") with (Strings.genSplit "," O [] tag).
  destruct (Strings.genSplit "," O [] tag); [congruence | reflexivity].
Qed.

(** X3.  The key and the options [parseKeyForOption] cuts a tag into give
    the tag back when joined with commas, none of them holds a comma, and
    a tag without a comma is a key without options. *)
Theorem parseKeyForOption_round_trip (tag : string) :
  Strings.Join (fst (parseKeyForOption tag) :: snd (parseKeyForOption tag)) ","
  = tag /\
  forallb (fun piece => negb (hasByte "," piece))
    (fst (parseKeyForOption tag) :: snd (parseKeyForOption tag)) = true /\
  (hasByte "," tag = false -> parseKeyForOption tag = (tag, [])).
Proof.
  rewrite parseKeyForOption_pieces. split; [|split].
  - apply Join_Split. discriminate.
  - apply (genSplit_comma_pieces tag []). reflexivity.
  - intros Hnone. unfold parseKeyForOption.
    change (Strings.Split tag ",") with (Strings.genSplit "," O [] tag).
    rewrite (genSplit_comma_none tag [] Hnone). reflexivity.
Qed.

Lemma parseKeyForOption_round_trip_witness :
  parseKeyForOption "DATABASE_URL" = ("DATABASE_URL", []).
Proof.
  apply (proj2 (proj2 (parseKeyForOption_round_trip "DATABASE_URL"))).
  reflexivity.
Defined.

Section ResolverMore.

Context `{RT : Runtime}.
Variable e : gmap string string.

(** X4.  Without options the resolution never fails: it gives the value
    of the effective key when it is set, the empty value included, and
    the default otherwise, expanded when the flag reads [true] in any
    letter case. *)
Theorem get_without_options (field : StructField) (prefix key : string)
  (opts : list string) :
  parseKeyForOption (TagGet field "env") = (key, opts) ->
  forallb (fun opt => String.eqb opt "") opts = true ->
  get e field prefix
  = (let val := GetOr e (prefix +:+ key) (TagGet field "envDefault") in
     if String.eqb (Strings.ToLower (TagGet field "envExpand")) "true"
     then Expand val (Get e) else val,
     None).
Proof.
  intros Hkey Hopts. unfold get. rewrite Hkey.
  rewrite applyOption_empty by exact Hopts. reflexivity.
Qed.

(** X5.  A variable set to the empty string hides the default: a field
    without options and without expansion whose effective key is set to
    the empty string is skipped, whatever its default. *)
Theorem empty_value_hides_default (field : StructField) (refField : value)
  (prefix key : string) (opts : list string) (funcMap : CustomParsers) :
  parseKeyForOption (TagGet field "env") = (key, opts) ->
  forallb (fun opt => String.eqb opt "") opts = true ->
  String.eqb (Strings.ToLower (TagGet field "envExpand")) "true" = false ->
  Os.LookupEnv e (prefix +:+ key) = Some "" ->
  get e field prefix = ("", None) /\
  populate e refField field prefix funcMap = Returns (refField, [], []).
Proof.
  intros Hkey Hopts Hexpand Hset.
  assert (Hget : get e field prefix = ("", None)).
  { unfold get. rewrite Hkey, Hexpand, applyOption_empty by exact Hopts.
    unfold getOrWithPrefix. rewrite Hset. reflexivity. }
  split; [exact Hget|]. unfold populate. rewrite Hget. reflexivity.
Qed.

(** X6.  With ["required"] among recognized options, a key that is set
    resolves to its value as the environment holds it: the default is not
    used and the value is not expanded, whatever the expansion flag. *)
Theorem required_reads_raw_environment (field : StructField)
  (prefix key value : string) (opts : list string) :
  parseKeyForOption (TagGet field "env") = (key, opts) ->
  forallb recognized opts = true ->
  In "required" opts ->
  Os.LookupEnv e (prefix +:+ key) = Some value ->
  get e field prefix = (value, None).
Proof.
  intros Hkey Hrec Hin Hset. unfold get. rewrite Hkey.
  rewrite applyOption_required by assumption.
  unfold getRequired. rewrite Hset. reflexivity.
Qed.



End ResolverMore.

Lemma get_without_options_witness :
  get (RT := Sample.runtime) Sample.portUnset (Sample.intField "PORT" "8080") ""
  = ("8080", None).
Proof.
  apply (get_without_options (RT := Sample.runtime) Sample.portUnset
           (Sample.intField "PORT" "8080") "" "PORT" []).
  - reflexivity.
  - reflexivity.
Defined.

Lemma empty_value_hides_default_witness :
  populate (RT := Sample.runtime) Sample.portEmpty (VInt 7)
    (Sample.intField "PORT" "8080") "" noParsers
  = Returns (VInt 7, [], []).
Proof.
  apply (proj2 (empty_value_hides_default (RT := Sample.runtime) Sample.portEmpty
           (Sample.intField "PORT" "8080") (VInt 7) "" "PORT" [] noParsers
           eq_refl eq_refl eq_refl eq_refl)).
Defined.

Lemma required_reads_raw_environment_witness :
  get (RT := Sample.runtime) Sample.port80
    (Sample.intField "PORT,required" "8080") ""
  = ("80", None).
Proof.
  apply (required_reads_raw_environment (RT := Sample.runtime) Sample.port80
           (Sample.intField "PORT,required" "8080") "" "PORT" "80" ["required"]).
  - reflexivity.
  - reflexivity.
  - simpl. left. reflexivity.
  - vm_compute. reflexivity.
Defined.

Lemma get_last_option_unsupported_witness :
  snd (get (RT := Sample.runtime) Sample.port80
         (Sample.intField "PORT,required,bogus," "") "")
  = Some (OptionNotSupported "bogus").
Proof.
  apply (get_last_option_unsupported (RT := Sample.runtime) Sample.port80
           (Sample.intField "PORT,required,bogus," "") "" "PORT" "bogus"
           ["required"] [""]).
  - reflexivity.
  - reflexivity.
  - reflexivity.
Defined.


(** ** Population engine *)

Section PopulationMore.

Context `{RT : Runtime}.
Variable e : gmap string string.

Lemma get_untagged (f : StructField) :
  untagged f = true -> get e f "" = ("", None).
Proof.
  unfold untagged. intros H.
  apply andb_prop in H as [H Hexpand]. apply andb_prop in H as [Henv Hdefault].
  apply String.eqb_eq in Henv. apply String.eqb_eq in Hdefault.
  apply negb_true_iff in Hexpand.
  unfold get. rewrite Henv, Hdefault, Hexpand. reflexivity.
Qed.

Lemma fieldLoop_untagged (P : value -> parsed) (funcMap : CustomParsers)
  (todo : list (StructField * value)) :
  forallb (fun fv => untagged (fst fv) && negb (recursedInto (fst fv) (snd fv)))
    todo = true ->
  forall seen calls errorList,
    fieldLoop e P "" funcMap todo seen calls errorList
    = Returns (VStruct (seen ++ todo), calls, aggregate errorList).
Proof.
  induction todo as [|[f v] rest IH]; intros Hall seen calls errorList.
  - simpl. rewrite app_nil_r. reflexivity.
  - simpl in Hall. apply andb_prop in Hall as [Hhead Hrest].
    apply andb_prop in Hhead as [Htag Hrec]. apply negb_true_iff in Hrec.
    cbn [fieldLoop]. unfold visit, populate.
    rewrite Hrec, (get_untagged f Htag). simpl.
    rewrite IH by exact Hrest. rewrite !app_nil_r, <- app_assoc. reflexivity.
Qed.

(** X9.  Under the empty prefix, a record whose fields have no [env] tag,
    no default and no expansion, and none of which is recursed into, is
    returned as it is, without an error and without a hook call, whatever
    the environment and the custom parsers. *)
Theorem untagged_record_untouched (fields : list (StructField * value))
  (funcMap : CustomParsers) :
  forallb (fun fv => untagged (fst fv) && negb (recursedInto (fst fv) (snd fv)))
    fields = true ->
  ParseWithFuncs e (VPtr (Some (VStruct fields))) funcMap
  = Returns (VPtr (Some (VStruct fields)), [], None) /\
  Parse e (VPtr (Some (VStruct fields)))
  = Returns (VPtr (Some (VStruct fields)), [], None).
Proof.
  intros Hall. unfold Parse, ParseWithFuncs.
  rewrite !ParseWithPrefixFuncs_struct.
  rewrite !(fieldLoop_untagged _ _ fields Hall). split; reflexivity.
Qed.

Lemma fieldLoop_shape (P : value -> parsed) (prefix : string)
  (funcMap : CustomParsers) (todo : list (StructField * value)) :
  forall seen calls errorList v' calls' err,
    fieldLoop e P prefix funcMap todo seen calls errorList
    = Returns (v', calls', err) ->
    exists fields',
      v' = VStruct fields' /\
      map fst fields' = map fst seen ++ map fst todo.
Proof.
  induction todo as [|[f v] rest IH];
    intros seen calls errorList v' calls' err Hloop.
  - simpl in Hloop. inversion Hloop; subst. exists seen.
    rewrite app_nil_r. split; reflexivity.
  - cbn [fieldLoop] in Hloop.
    destruct (visit e P prefix funcMap f v) as [x c er|x c er|msg].
    + apply IH in Hloop as (fields' & Hv & Hnames). exists fields'.
      split; [exact Hv|]. rewrite Hnames, map_app, <- app_assoc. reflexivity.
    + inversion Hloop; subst. eexists. split; [reflexivity|].
      rewrite map_app. reflexivity.
    + discriminate Hloop.
Qed.

(** X10.  A parse that returns, with or without an error, returns a
    pointer to a record with the same fields in the same order: the same
    names, types and tags; only the values the fields hold can differ. *)
Theorem parse_keeps_fields (fields : list (StructField * value))
  (prefix : string) (funcMap : CustomParsers) (v' : value)
  (calls : list hookCall) (err : option error) :
  ParseWithPrefixFuncs e (VPtr (Some (VStruct fields))) prefix funcMap
  = Returns (v', calls, err) ->
  exists fields',
    v' = VPtr (Some (VStruct fields')) /\
    map fst fields' = map fst fields.
Proof.
  rewrite ParseWithPrefixFuncs_struct. intros Hparse.
  destruct (fieldLoop e (Parse e) prefix funcMap fields [] [] [])
    as [[[ref' calls'] err']|msg] eqn:Hloop; [|discriminate Hparse].
  inversion Hparse; subst.
  apply fieldLoop_shape in Hloop as (fields' & -> & Hnames).
  exists fields'. split; [reflexivity | exact Hnames].
Qed.

End PopulationMore.

Lemma untagged_record_untouched_witness :
  Parse (RT := Sample.runtime) Sample.mixedEnv
    (VPtr (Some (VStruct
       [(Sample.innerField, VPtr None); (Sample.countField, VPtr None)])))
  = Returns
      (VPtr (Some (VStruct
         [(Sample.innerField, VPtr None); (Sample.countField, VPtr None)])),
       [], None).
Proof.
  apply (proj2 (untagged_record_untouched (RT := Sample.runtime) Sample.mixedEnv
           [(Sample.innerField, VPtr None); (Sample.countField, VPtr None)]
           noParsers eq_refl)).
Defined.

Lemma parse_keeps_fields_witness :
  exists fields',
    VPtr (Some (VStruct
      [(Sample.portField, VInt 0);
       (Sample.countField, VPtr (Some (VInt 5)));
       (Sample.topField, VString "")]))
    = VPtr (Some (VStruct fields')) /\
    map fst fields'
    = map fst [(Sample.portField, VInt 0);
               (Sample.countField, VPtr (Some (VInt 5)));
               (Sample.topField, VString "")].
Proof.
  apply (parse_keeps_fields (RT := Sample.runtime) Sample.mixedEnv
           [(Sample.portField, VInt 0);
            (Sample.countField, VPtr (Some (VInt 5)));
            (Sample.topField, VString "")]
           "" noParsers _ [] (Some ErrNotAStructPtr)).
  vm_compute. reflexivity.
Defined.

(** ** Conversion *)

Section ConversionMore.

Context `{RT : Runtime}.

Lemma fieldSet_unexported (refType : StructField) (t : typ) (val : value) :
  Exported refType = false -> fieldSet refType t val = Panics unexportedPanic.
Proof. intros Hexp. unfold fieldSet. rewrite Hexp. reflexivity. Qed.

Lemma fieldSetKind_unexported (refType : StructField) (val : value) :
  Exported refType = false -> fieldSetKind refType val = Panics unexportedPanic.
Proof. intros Hexp. unfold fieldSetKind. rewrite Hexp. reflexivity. Qed.

(** X11.  A field that is not exported is never assigned: a conversion on
    it that returns has failed and left the field as it was (any other
    conversion panics). *)
Theorem unexported_never_assigned (field : value) (refType : StructField)
  (raw : string) (funcMap : CustomParsers) (v : value) (err : option error) :
  Exported refType = false ->
  set field refType raw funcMap = Returns (v, err) ->
  v = field /\ err <> None.
Proof.
  intros Hexp Hset. unfold set in Hset.
  unfold handleSlice, handleTextUnmarshaler, parseTextUnmarshalers, setSlice,
    setParsed in Hset.
  rewrite Hexp in Hset. simpl negb in Hset. cbv iota in Hset.
  break_outcome Hset;
    rewrite ?(fieldSet_unexported _ _ _ Hexp),
            ?(fieldSetKind_unexported _ _ Hexp) in Hset;
    try discriminate Hset;
    inversion Hset; subst; (split; [reflexivity | discriminate]).
Qed.

Lemma digit_range (c : ascii) (d : Z) :
  Strconv.digit c = Some d -> 0 <= d <= 9.
Proof.
  unfold Strconv.digit.
  destruct (Nat.leb 48 (nat_of_ascii c)) eqn:Hlo; [|discriminate].
  destruct (Nat.leb (nat_of_ascii c) 57) eqn:Hhi; [|discriminate].
  simpl. intros H; inversion H; subst.
  apply Nat.leb_le in Hlo. apply Nat.leb_le in Hhi. lia.
Qed.

Lemma scanDigits_range (maxVal : Z) (s : string) :
  forall n m,
    0 <= n <= maxVal ->
    Strconv.scanDigits maxVal s n = Strconv.Number m ->
    0 <= m <= maxVal.
Proof.
  induction s as [|c s IH]; intros n m Hn; simpl.
  - intros H; inversion H; subst. exact Hn.
  - destruct (Strconv.digit c) as [d|] eqn:Hd; [|discriminate].
    apply digit_range in Hd.
    destruct (maxVal <? n * 10 + d) eqn:Hmax; [discriminate|].
    apply Z.ltb_ge in Hmax. apply IH. lia.
Qed.

Lemma ParseUint_range (s : string) (bitSize n : Z) :
  0 <= bitSize ->
  Strconv.ParseUint s bitSize = Ok n ->
  0 <= n <= 2 ^ bitSize - 1.
Proof.
  intros Hbits. unfold Strconv.ParseUint.
  destruct s as [|c s]; [discriminate|].
  destruct (Strconv.scanDigits (2 ^ bitSize - 1) (String c s) 0) as [| |m] eqn:Hscan;
    try discriminate.
  intros H; inversion H; subst.
  apply (scanDigits_range _ _ 0 n) in Hscan; [exact Hscan|].
  pose proof (Z.pow_pos_nonneg 2 bitSize). lia.
Qed.

Lemma ParseInt_range (s : string) (bitSize n : Z) :
  0 < bitSize ->
  Strconv.ParseInt s bitSize = Ok n ->
  - 2 ^ (bitSize - 1) <= n <= 2 ^ (bitSize - 1) - 1.
Proof.
  intros Hbits. unfold Strconv.ParseInt.
  destruct s as [|c s]; [discriminate|].
  set (neg := Ascii.eqb c "-").
  destruct (if (Ascii.eqb c "+" || neg)%bool then s else String c s)
    as [|c' s']; [discriminate|].
  destruct (Strconv.scanDigits (2 ^ bitSize - 1) (String c' s') 0)
    as [| |un] eqn:Hscan; try discriminate.
  pose proof (Z.pow_pos_nonneg 2 bitSize) as Hpow.
  pose proof (Z.pow_pos_nonneg 2 (bitSize - 1)) as Hcut.
  apply (scanDigits_range _ _ 0 un) in Hscan; [|lia].
  destruct neg; simpl.
  - destruct (2 ^ (bitSize - 1) <? un) eqn:Hlt; [discriminate|].
    apply Z.ltb_ge in Hlt. intros H; inversion H; subst. lia.
  - destruct (2 ^ (bitSize - 1) <=? un) eqn:Hle; [discriminate|].
    apply Z.leb_gt in Hle. intros H; inversion H; subst. lia.
Qed.

(** X13.  A field of type int, uint, int64 or uint64 without a custom
    parser is only ever assigned a value of its range, that of 32 bits for
    int and uint: a text outside it fails the conversion. *)
Theorem integer_fields_in_range (field : value) (refType : StructField)
  (raw : string) (funcMap : CustomParsers) (v : value) (lo hi : Z) :
  intRange (Type_ refType) = Some (lo, hi) ->
  funcMap (Type_ refType) = None ->
  set field refType raw funcMap = Returns (v, None) ->
  exists n, integerOf v = Some n /\ lo <= n <= hi.
Proof.
  intros Hrange Hmap. unfold set. rewrite Hmap.
  destruct (Type_ refType) eqn:Ht; simpl in Hrange; try discriminate Hrange;
    inversion Hrange; subst lo hi; clear Hrange; simpl;
    unfold setParsed, fieldSetKind.
  - destruct (Strconv.ParseInt raw 32) as [n|] eqn:Hparse; [|discriminate].
    destruct (Exported refType); [|discriminate].
    intros H; inversion H; subst. exists n. split; [reflexivity|].
    apply ParseInt_range in Hparse; lia.
  - destruct (Strconv.ParseUint raw 32) as [n|] eqn:Hparse; [|discriminate].
    destruct (Exported refType); [|discriminate].
    intros H; inversion H; subst. exists n. split; [reflexivity|].
    apply ParseUint_range in Hparse; lia.
  - destruct (Strconv.ParseInt raw 64) as [n|] eqn:Hparse; [|discriminate].
    destruct (Exported refType); [|discriminate].
    intros H; inversion H; subst. exists n. split; [reflexivity|].
    apply ParseInt_range in Hparse; lia.
  - destruct (Strconv.ParseUint raw 64) as [n|] eqn:Hparse; [|discriminate].
    destruct (Exported refType); [|discriminate].
    intros H; inversion H; subst. exists n. split; [reflexivity|].
    apply ParseUint_range in Hparse; lia.
Qed.

End ConversionMore.

Section Allocation.

Context `{RT : Runtime}.
Variable e : gmap string string.

(** X14.  A failed conversion can still change a field: a nil pointer
    field that has a value to convert, no custom parser and a target type
    without [UnmarshalText] is made to point to a fresh zero value before
    the conversion fails with [ErrUnsupportedType], and the loop records
    the message and keeps the new pointer. *)
Theorem unsupported_pointer_is_allocated (refType : StructField) (elem : typ)
  (raw prefix : string) (funcMap : CustomParsers) :
  Type_ refType = TPtr elem ->
  Exported refType = true ->
  funcMap (TPtr elem) = None ->
  UnmarshalText elem = None ->
  get e refType prefix = (raw, None) ->
  raw <> "" ->
  set (VPtr None) refType raw funcMap
  = Returns (VPtr (Some (Zero elem)), Some ErrUnsupportedType) /\
  visit e (Parse e) prefix funcMap refType (VPtr None)
  = Next (VPtr (Some (Zero elem))) [] [Error ErrUnsupportedType].
Proof.
  intros Htype Hexp Hmap Hum Hget Hraw.
  assert (Hset : set (VPtr None) refType raw funcMap
                 = Returns (VPtr (Some (Zero elem)), Some ErrUnsupportedType)).
  { unfold set. rewrite Htype, Hmap. simpl.
    unfold handleTextUnmarshaler. rewrite Hexp, Htype, Hum. reflexivity. }
  split; [exact Hset|].
  unfold visit, populate. simpl. rewrite Hget.
  apply String.eqb_neq in Hraw. rewrite Hraw, Hset. reflexivity.
Qed.

End Allocation.

Lemma unsupported_pointer_is_allocated_witness :
  visit (RT := Sample.runtime) Sample.port80
    (Parse (RT := Sample.runtime) Sample.port80) "" noParsers
    (mkField "Count" (TPtr TInt) true [("env", "PORT")]) (VPtr None)
  = Next (VPtr (Some (VInt 0))) [] ["Type is not supported"].
Proof.
  apply (proj2 (unsupported_pointer_is_allocated (RT := Sample.runtime)
           Sample.port80 (mkField "Count" (TPtr TInt) true [("env", "PORT")])
           TInt "80" "" noParsers eq_refl eq_refl eq_refl eq_refl eq_refl
           ltac:(discriminate))).
Defined.

Lemma unexported_never_assigned_witness :
  VInt 7 = VInt 7 /\ Some (NumError "ParseInt" "80a" ErrSyntax) <> None.
Proof.
  apply (unexported_never_assigned (RT := Sample.runtime) (VInt 7)
           (mkField "port" TInt false [("env", "PORT")]) "80a" noParsers).
  - reflexivity.
  - reflexivity.
Defined.

Lemma integer_fields_in_range_witness :
  exists n, integerOf (VInt 80) = Some n /\ - 2 ^ 31 <= n <= 2 ^ 31 - 1.
Proof.
  apply (integer_fields_in_range (RT := Sample.runtime) (VInt 0)
           Sample.portField "80" noParsers (VInt 80)).
  - reflexivity.
  - reflexivity.
  - reflexivity.
Defined.

Lemma nested_error_short_circuits_witness :
  ParseWithPrefixFuncs (RT := Sample.runtime) Sample.portUnset
    (VPtr (Some (VStruct
       [(Sample.portField, VInt 0);
        (Sample.innerField,
         VPtr (Some (VStruct [(Sample.intField "PORT,required" "", VInt 0)])));
        (Sample.topField, VString "")])))
    "" noParsers
  = Returns
      (VPtr (Some (VStruct
         [(Sample.portField, VInt 0);
          (Sample.innerField,
           VPtr (Some (VStruct [(Sample.intField "PORT,required" "", VInt 0)])));
          (Sample.topField, VString "")])),
       [], Some (Aggregate (Error (RT := Sample.runtime) (RequiredNotSet "PORT")))).
Proof.
  apply (nested_error_short_circuits (RT := Sample.runtime) Sample.portUnset
           "" noParsers
           [(Sample.portField, VInt 0)] [(Sample.portField, VInt 0)]
           [(Sample.topField, VString "")] [] [] []
           Sample.innerField
           (VPtr (Some (VStruct [(Sample.intField "PORT,required" "", VInt 0)])))
           (VPtr (Some (VStruct [(Sample.intField "PORT,required" "", VInt 0)])))
           (Aggregate (Error (RT := Sample.runtime) (RequiredNotSet "PORT")))).
  - apply (visited_cons Sample.portUnset "" noParsers Sample.portField
             (VInt 0) (VInt 0) [] [] [] [] [] []).
    + vm_compute. reflexivity.
    + apply visited_nil.
  - reflexivity.
  - vm_compute. reflexivity.
Defined.

(** ** The hook and panics *)

Section Hook.

Context `{RT : Runtime}.
Variable e : gmap string string.

Lemma visit_next_calls (prefix : string) (funcMap : CustomParsers)
  (f : StructField) (v v' : value) (calls : list hookCall) (errs : list string) :
  recursedInto f v = false ->
  visit e (Parse e) prefix funcMap f v = Next v' calls errs ->
  calls = option_list (hookOf e prefix funcMap (f, v)).
Proof.
  intros Hrec. unfold visit, hookOf, populate. simpl. rewrite Hrec.
  destruct (get e f prefix) as [raw [err|]].
  - intros H; inversion H; reflexivity.
  - destruct (String.eqb raw "").
    + intros H; inversion H; reflexivity.
    + destruct (set v f raw funcMap) as [[? [?|]]|];
        intros H; inversion H; reflexivity.
Qed.

Lemma visited_calls (prefix : string) (funcMap : CustomParsers)
  (fields fields' : list (StructField * value)) (calls : list hookCall)
  (errs : list string) :
  visited e prefix funcMap fields fields' calls errs ->
  forallb (fun fv => negb (recursedInto (fst fv) (snd fv))) fields = true ->
  calls = omap (hookOf e prefix funcMap) fields.
Proof.
  induction 1 as [|f v v' c er rest rest' cs ers Hvisit _ IH]; intros Hflat.
  - reflexivity.
  - simpl in Hflat. apply andb_prop in Hflat as [Hhead Hrest].
    apply negb_true_iff in Hhead.
    rewrite (visit_next_calls prefix funcMap f v v' c er Hhead Hvisit).
    rewrite (IH Hrest). simpl.
    destruct (hookOf e prefix funcMap (f, v)); reflexivity.
Qed.

(** X12.  On a record no field of which is recursed into and no round of
    which panics, the hook [OnEnvVarSet] is called once for each field
    that is resolved, converted and assigned, with the text that was
    converted, in field order, and for no other field. *)
Theorem hook_called_for_assigned_fields (fields : list (StructField * value))
  (prefix : string) (funcMap : CustomParsers) :
  forallb (fun fv => negb (recursedInto (fst fv) (snd fv))
                     && goesOn (visit e (Parse e) prefix funcMap (fst fv) (snd fv)))
    fields = true ->
  exists v' err,
    ParseWithPrefixFuncs e (VPtr (Some (VStruct fields))) prefix funcMap
    = Returns (v', omap (hookOf e prefix funcMap) fields, err).
Proof.
  intros Hall.
  assert (Hflat : forallb (fun fv => negb (recursedInto (fst fv) (snd fv)))
                    fields = true).
  { apply forallb_forall. intros fv Hin.
    rewrite forallb_forall in Hall. apply Hall in Hin.
    apply andb_prop in Hin as [H _]. exact H. }
  assert (Hgo : forallb (fun fv => goesOn (visit e (Parse e) prefix funcMap
                                             (fst fv) (snd fv)))
                  fields = true).
  { apply forallb_forall. intros fv Hin.
    rewrite forallb_forall in Hall. apply Hall in Hin.
    apply andb_prop in Hin as [_ H]. exact H. }
  destruct (visited_total e prefix funcMap fields Hgo)
    as (fields' & calls & errs & Hv).
  rewrite ParseWithPrefixFuncs_struct.
  pose proof (fieldLoop_visited e prefix funcMap fields fields' calls errs Hv
                [] [] [] []) as Hloop.
  rewrite app_nil_r in Hloop. rewrite Hloop. simpl.
  rewrite (visited_calls prefix funcMap fields fields' calls errs Hv Hflat).
  eexists. eexists. reflexivity.
Qed.

End Hook.

Lemma hook_called_for_assigned_fields_witness :
  exists v' err,
    ParseWithPrefixFuncs (RT := Sample.runtime) Sample.mixedEnv
      (VPtr (Some (VStruct Sample.mixedFields))) "" noParsers
    = Returns
        (v',
         omap (hookOf (RT := Sample.runtime) Sample.mixedEnv "" noParsers)
           Sample.mixedFields,
         err).
Proof.
  apply (hook_called_for_assigned_fields (RT := Sample.runtime) Sample.mixedEnv
           Sample.mixedFields "" noParsers).
  vm_compute. reflexivity.
Defined.

Section NoPanic.

Context `{RT : Runtime}.
Variable e : gmap string string.









End NoPanic.



(** ** Writing, then parsing *)

Section WriteThenParse.

Context `{RT : Runtime}.

Lemma parseKeyForOption_plain (key : string) :
  hasByte "," key = false -> parseKeyForOption key = (key, []).
Proof.
  intros Hnone. unfold parseKeyForOption.
  change (Strings.Split key ",") with (Strings.genSplit "," O [] key).
  rewrite (genSplit_comma_none key [] Hnone). reflexivity.
Qed.

(** X17.  What [Set] writes, [Parse] reads: after a variable is set to a
    value that is not empty, a settable string field tagged with its name
    (a name without a comma, no expansion) resolves to that value, and the
    parse of a record made of this field assigns it, calls the hook with
    it and returns no error. *)
Theorem Set_then_Parse (e : gmap string string) (field : StructField)
  (key value old : string) :
  setenvAccepts key value = true ->
  hasByte "," key = false ->
  TagGet field "env" = key ->
  String.eqb (Strings.ToLower (TagGet field "envExpand")) "true" = false ->
  value <> "" ->
  Type_ field = TString ->
  Exported field = true ->
  get (fst (Set_ e key value)) field "" = (value, None) /\
  Parse (fst (Set_ e key value)) (VPtr (Some (VStruct [(field, VString old)])))
  = Returns (VPtr (Some (VStruct [(field, VString value)])),
             [(field, value)], None).
Proof.
  intros Hok Hcomma Htag Hexpand Hvalue Htype Hexp.
  pose proof (setenvAccepts_name key value Hok) as Hname.
  assert (Hget : get (fst (Set_ e key value)) field "" = (value, None)).
  { unfold get. rewrite Htag, (parseKeyForOption_plain key Hcomma), Hexpand.
    unfold Set_. rewrite Hok. simpl.
    unfold getOrWithPrefix, Os.LookupEnv, Os.Setenv.
    rewrite append_nil_l, Hname, lookup_insert_eq. reflexivity. }
  split; [exact Hget|].
  unfold Parse. rewrite ParseWithPrefixFuncs_struct.
  cbn [fieldLoop]. unfold visit, populate. simpl recursedInto. cbv iota.
  rewrite Hget. apply String.eqb_neq in Hvalue. rewrite Hvalue.
  unfold set, noParsers. rewrite Htype. simpl.
  unfold fieldSetKind. rewrite Hexp. reflexivity.
Qed.

End WriteThenParse.

Lemma Set_then_Parse_witness :
  Parse (RT := Sample.runtime) (fst (Set_ Sample.portUnset "NAME" "bare"))
    (VPtr (Some (VStruct [(Sample.nameField, VString "")])))
  = Returns (VPtr (Some (VStruct [(Sample.nameField, VString "bare")])),
             [(Sample.nameField, "bare")], None).
Proof.
  apply (proj2 (Set_then_Parse (RT := Sample.runtime) Sample.portUnset
           Sample.nameField "NAME" "bare" "" eq_refl eq_refl eq_refl eq_refl
           ltac:(discriminate) eq_refl eq_refl)).
Defined.

(** ** Sequences *)

Section SequencesMore.

Context `{RT : Runtime}.

Lemma convertAll_In (conv : string -> result value) (pieces : list string)
  (vs : list value) (piece : string) :
  convertAll conv pieces = Ok vs ->
  In piece pieces ->
  exists v, conv piece = Ok v.
Proof.
  revert vs. induction pieces as [|p rest IH]; intros vs Hall Hin;
    [destruct Hin|].
  simpl in Hall. destruct (conv p) as [v|] eqn:Hp; [|discriminate Hall].
  destruct (convertAll conv rest) as [ws|] eqn:Hrest; [|discriminate Hall].
  destruct Hin as [->|Hin]; [exists v; exact Hp|].
  apply (IH ws); [reflexivity | exact Hin].
Qed.

(** X19.  An empty piece fails a sequence of integers: when the split of
    the text holds an empty piece (two separators in a row, or one at an
    end), a settable field of type []int, []int64 or []uint64 without a
    custom parser is not assigned and the conversion returns an error. *)
Theorem empty_piece_fails_integers (field : value) (refType : StructField)
  (raw : string) (funcMap : CustomParsers) (t : typ) :
  Type_ refType = TSlice t ->
  t = TInt \/ t = TInt64 \/ t = TUint64 ->
  funcMap (TSlice t) = None ->
  Exported refType = true ->
  In "" (Strings.Split raw
           (if String.eqb (TagGet refType "envSeparator") "" then ","
            else TagGet refType "envSeparator")) ->
  exists err, set field refType raw funcMap = Returns (field, Some err).
Proof.
  intros Htype Ht Hmap Hexp Hin.
  rewrite (set_slice field refType raw funcMap t Htype Hmap).
  assert (Hconv : exists conv,
             scalarOf t = Some conv /\ forall v, conv "" <> Ok v).
  { destruct Ht as [->|[->| ->]]; eexists; (split; [reflexivity|]);
      intros v; discriminate. }
  destruct Hconv as (conv & Hscalar & Hempty).
  rewrite (handleSlice_convertAll field refType raw _ t conv Htype Hscalar Hexp).
  destruct (convertAll conv _) as [vs|err] eqn:Hall.
  - destruct (convertAll_In conv _ vs "" Hall Hin) as [v Hv].
    exfalso. exact (Hempty v Hv).
  - exists err. reflexivity.
Qed.

Lemma decodeElem_pointer (target : typ)
  (um : value -> string -> value * option error) (piece : string) (v : value) :
  decodeElem (TPtr target) um piece = Ok v -> exists x, v = VPtr (Some x).
Proof.
  unfold decodeElem. destruct (um (Zero target) piece) as [x [err|]];
    [discriminate|].
  intros H; inversion H. exists x. reflexivity.
Qed.

(** X18.  A slice of pointers to a type that decodes from text is given
    one pointer for each piece of the text, none of them nil. *)
Theorem pointer_slice_has_no_nil (field : value) (refType : StructField)
  (raw : string) (funcMap : CustomParsers) (target : typ)
  (um : value -> string -> value * option error) (v : value) :
  Type_ refType = TSlice (TPtr target) ->
  funcMap (TSlice (TPtr target)) = None ->
  Exported refType = true ->
  UnmarshalText target = Some um ->
  set field refType raw funcMap = Returns (v, None) ->
  exists elems,
    v = VSlice elems /\
    length elems
    = length (Strings.Split raw
                (if String.eqb (TagGet refType "envSeparator") "" then ","
                 else TagGet refType "envSeparator")) /\
    Forall (fun x => exists y, x = VPtr (Some y)) elems.
Proof.
  intros Htype Hmap Hexp Hum.
  rewrite (set_slice field refType raw funcMap _ Htype Hmap).
  rewrite (handleSlice_decode field refType raw _ (TPtr target) Htype eq_refl Hexp).
  simpl decodeTarget. rewrite Hum.
  destruct (convertAll (decodeElem (TPtr target) um) _) as [vs|err] eqn:Hall;
    [|discriminate].
  intros H; inversion H; subst. exists vs. split; [reflexivity|].
  apply convertAll_Ok in Hall. split.
  - symmetry. eapply Forall2_length. exact Hall.
  - clear H. induction Hall as [|p x ps xs Hp _ IH]; constructor.
    + apply (decodeElem_pointer target um p x Hp).
    + exact IH.
Qed.

End SequencesMore.

Lemma empty_piece_fails_integers_witness :
  exists err,
    set (RT := Sample.runtime) (VSlice []) Sample.idsField "1,2," noParsers
    = Returns (VSlice [], Some err).
Proof.
  apply (empty_piece_fails_integers (RT := Sample.runtime) (VSlice [])
           Sample.idsField "1,2," noParsers TInt).
  - reflexivity.
  - left. reflexivity.
  - reflexivity.
  - reflexivity.
  - vm_compute. right. right. left. reflexivity.
Defined.

Lemma pointer_slice_has_no_nil_witness :
  exists elems,
    VSlice [VPtr (Some (VString "info")); VPtr (Some (VString "warn"))]
    = VSlice elems /\
    length elems = length (Strings.Split "info,warn" ",") /\
    Forall (fun x => exists y, x = VPtr (Some y)) elems.
Proof.
  apply (pointer_slice_has_no_nil (RT := Sample.levelRuntime) (VSlice [])
           Sample.levelsField "info,warn" noParsers (TOther "Level")
           Sample.decodeLevel).
  - reflexivity.
  - reflexivity.
  - reflexivity.
  - reflexivity.
  - vm_compute. reflexivity.
Defined.
